(** * Portfolio analytics: a shallow embedding of [portfolio_analytics.py]

    The program loads a brokerage transaction export with pandas, relabels
    and cleans its columns, aggregates the trades into current holdings and
    computes cumulative return and maximum drawdown of a price series.

    Conventions of the embedding.
    - A pandas [DataFrame] is an ordered list of labelled columns; a column
      carries its dtype in its constructor ([object], numeric, datetime).
    - A finite float is the rational number it denotes ([Q]); the missing
      value [NaN] of a numeric column is [None].  Infinite floats are not
      represented: statements about quotients assume non-zero prices, and
      statements about cells leave out the cells that spell an infinity.
    - Arithmetic on prices is exact (rounding is not modelled).  The sum of
      a group of quantities is an argument of the aggregator, so that its
      properties hold for the arithmetic pandas uses; [float64_sum] models
      that arithmetic for float64 columns and [series_sum] is the exact
      sum.
    - A Python exception is the [Raise] branch of [result]; text written by
      [print] is collected in a list of lines. *)

From Stdlib Require Import ZArith QArith Qminmax Qfield Lqa Lia.
From Stdlib Require Import List String Ascii Bool Permutation Sorted.
Import ListNotations.

Open Scope string_scope.
Open Scope Q_scope.

(** ** Exceptions and results *)

Inductive exn : Type :=
| FileNotFoundError
| PermissionError
| ParserError
| AttributeError
| ValueError.

Inductive result (A : Type) : Type :=
| Ok (a : A)
| Raise (e : exn).

Arguments Ok {A} a.
Arguments Raise {A} e.

Definition bind {A B : Type} (r : result A) (k : A -> result B) : result B :=
  match r with
  | Ok a => k a
  | Raise e => Raise e
  end.

Notation "x <- r ;; k" := (bind r (fun x => k))
  (at level 61, r at next level, right associativity).

(** ** pandas values *)

(** A cell of an [object] column as [read_csv] produces it: a Python string,
    or the float [NaN] standing for an empty field. *)
Inductive obj : Type :=
| OStr (s : string)
| ONaN.

(** A pandas timestamp: a calendar date parsed from text, or the instant a
    number denotes when [to_datetime] reads it as nanoseconds since the
    epoch. *)
Inductive timestamp : Type :=
| Calendar (year month day : nat)
| EpochNs (ns : Q).

Inductive column : Type :=
| ObjCol (cells : list obj)
| NumCol (cells : list (option Q))
| DateCol (cells : list (option timestamp)).

Definition DataFrame : Type := list (string * column).

(** [df.columns] *)
Definition columns (df : DataFrame) : list string := map fst df.

(** [col in df.columns] *)
Definition has_column (df : DataFrame) (col : string) : bool :=
  existsb (String.eqb col) (columns df).

(** [df[col]]: the columns carrying the label.  One column is a Series;
    several (duplicate labels) make pandas return a DataFrame. *)
Definition getitem (df : DataFrame) (col : string) : list column :=
  map snd (filter (fun lc => String.eqb (fst lc) col) df).

(** [df[col] = series] for a label already present. *)
Definition setitem (df : DataFrame) (col : string) (c : column) : DataFrame :=
  map (fun lc => if String.eqb (fst lc) col then (col, c) else lc) df.

(** [df.rename(columns=mapper)] with a dict: a label found in the dict is
    replaced, any other label is kept. *)
Fixpoint dict_get (d : list (string * string)) (k : string) : option string :=
  match d with
  | [] => None
  | (k', v) :: d' => if String.eqb k k' then Some v else dict_get d' k
  end.

Definition relabel (mapper : list (string * string)) (l : string) : string :=
  match dict_get mapper l with
  | Some l' => l'
  | None => l
  end.

Definition rename (mapper : list (string * string)) (df : DataFrame) : DataFrame :=
  map (fun lc => (relabel mapper (fst lc), snd lc)) df.

(** [Series.astype(str)] on an [object] column: [str(NaN)] is ["nan"]. *)
Definition astype_str (cells : list obj) : list string :=
  map (fun c => match c with OStr s => s | ONaN => "nan" end) cells.

(** [str.replace(old, new)] for a one-character [old], the only form the
    program uses. *)
Fixpoint replace (old : ascii) (new : string) (s : string) : string :=
  match s with
  | EmptyString => EmptyString
  | String c s' =>
      if Ascii.eqb c old then new ++ replace old new s'
      else String c (replace old new s')
  end.

(** [Series.str.replace(old, new, regex=False)] *)
Definition str_replace (old : ascii) (new : string) (cells : list string)
  : list string :=
  map (replace old new) cells.

(** *** Reading decimal numerals *)

Definition digit_of (c : ascii) : option Z :=
  let n := nat_of_ascii c in
  if (48 <=? n)%nat && (n <=? 57)%nat then Some (Z.of_nat (n - 48)) else None.

(** Reads the longest prefix of digits: the value accumulated on [acc], the
    number of digits read, and the rest of the string. *)
Fixpoint digits (s : string) (acc : Z) (cnt : nat) : Z * nat * string :=
  match s with
  | EmptyString => (acc, cnt, s)
  | String c s' =>
      match digit_of c with
      | Some d => digits s' (10 * acc + d)%Z (S cnt)
      | None => (acc, cnt, s)
      end
  end.

(** The blanks the numeral reader of pandas skips around a numeral: space,
    tab, line feed, vertical tab, form feed, carriage return. *)
Definition is_space (c : ascii) : bool :=
  let n := nat_of_ascii c in
  (n =? 32)%nat || ((9 <=? n)%nat && (n <=? 13)%nat).

Fixpoint skip_spaces (s : string) : string :=
  match s with
  | EmptyString => EmptyString
  | String c s' => if is_space c then skip_spaces s' else s
  end.

Fixpoint all_spaces (s : string) : bool :=
  match s with
  | EmptyString => true
  | String c s' => is_space c && all_spaces s'
  end.

(** Digits, then an optional point followed by digits, with one digit at
    least: the value read and the rest of the string. *)
Definition mantissa (s : string) : option (Q * string) :=
  let '(ip, ni, rest) := digits s 0%Z 0%nat in
  match rest with
  | EmptyString => if (ni =? 0)%nat then None else Some (inject_Z ip, rest)
  | String c rest' =>
      if Ascii.eqb c "."%char then
        let '(m, nf, rest'') := digits rest' ip 0%nat in
        if (ni + nf =? 0)%nat then None
        else Some (m # Z.to_pos (10 ^ Z.of_nat nf), rest'')
      else if (ni =? 0)%nat then None else Some (inject_Z ip, rest)
  end.

(** What may follow the mantissa: nothing but blanks ([Some None]), or the
    letter e or E with a signed whole number and then blanks
    ([Some (Some e)]); anything else makes the numeral unreadable. *)
Definition exponent_part (s : string) : option (option Z) :=
  match s with
  | EmptyString => Some None
  | String c s' =>
      if Ascii.eqb c "e"%char || Ascii.eqb c "E"%char then
        let neg := match s' with
                   | String c' _ => Ascii.eqb c' "-"%char
                   | EmptyString => false
                   end in
        let s1 := match s' with
                  | String c' t =>
                      if Ascii.eqb c' "-"%char || Ascii.eqb c' "+"%char
                      then t else s'
                  | EmptyString => s'
                  end in
        let '(e, ne, rest) := digits s1 0%Z 0%nat in
        if (1 <=? ne)%nat && all_spaces rest
        then Some (Some (if neg then (- e)%Z else e))
        else None
      else if all_spaces s then Some None else None
  end.

Definition unsigned_decimal (s : string) : option Q :=
  match mantissa s with
  | Some (q, rest) =>
      match exponent_part rest with
      | Some None => Some q
      | Some (Some e) => Some (q * Qpower 10 e)
      | None => None
      end
  | None => None
  end.

(** The number a string denotes for [pd.to_numeric]: blanks, an optional
    sign, digits with an optional point, an optional exponent, blanks.  Any
    other text is unparseable.  The value is exact: rounding to float64 and
    the range of float64 are not modelled, and the spellings of infinity
    ([spells_infinity] below), which pandas reads and which have no
    rational value, count as unparseable here. *)
Definition parse_float (s : string) : option Q :=
  match skip_spaces s with
  | String c s' =>
      if Ascii.eqb c "-"%char then option_map Qopp (unsigned_decimal s')
      else if Ascii.eqb c "+"%char then unsigned_decimal s'
      else unsigned_decimal (String c s')
  | EmptyString => None
  end.

Definition lower (c : ascii) : ascii :=
  let n := nat_of_ascii c in
  if (65 <=? n)%nat && (n <=? 90)%nat then ascii_of_nat (n + 32) else c.

Fixpoint string_lower (s : string) : string :=
  match s with
  | EmptyString => EmptyString
  | String c s' => String (lower c) (string_lower s')
  end.

(** The texts [pd.to_numeric] reads as an infinite float. *)
Definition spells_infinity (s : string) : bool :=
  existsb (String.eqb (string_lower s))
          ["inf"; "+inf"; "-inf"; "infinity"; "+infinity"; "-infinity"].

(** The text is read as a finite float or not at all: it does not spell an
    infinity, and the number it denotes, if any, lies within the range of
    float64 (at most 1e308 in absolute value). *)
Definition reads_finite (s : string) : bool :=
  negb (spells_infinity s)
  && match parse_float s with
     | Some q =>
         Qle_bool (- inject_Z (10 ^ 308)) q && Qle_bool q (inject_Z (10 ^ 308))
     | None => true
     end.

(** [pd.to_numeric(series, errors='coerce')]: unparseable text becomes
    [NaN]; it never raises. *)
Definition to_numeric_coerce (cells : list string) : list (option Q) :=
  map parse_float cells.

(** *** Reading day-first dates *)

Definition is_date_sep (c : ascii) : bool :=
  Ascii.eqb c "-"%char || Ascii.eqb c "/"%char || Ascii.eqb c "."%char.

Definition leap_year (y : nat) : bool :=
  ((y mod 4 =? 0) && negb (y mod 100 =? 0) || (y mod 400 =? 0))%nat.

Definition days_in_month (y m : nat) : nat :=
  match m with
  | 1 | 3 | 5 | 7 | 8 | 10 | 12 => 31
  | 4 | 6 | 9 | 11 => 30
  | 2 => if leap_year y then 29 else 28
  | _ => 0
  end%nat.

(** The date a string denotes for [pd.to_datetime(..., dayfirst=True)], on
    the export's layout day, month, four-digit year with one separator.
    Other layouts, some of which pandas reads too, count as unreadable
    here; the properties below use this reader only on cells where it and
    pandas agree. *)
Definition parse_dayfirst (s : string) : option timestamp :=
  let '(d, nd, r1) := digits s 0%Z 0%nat in
  match r1 with
  | String sep r1' =>
      let '(m, nm, r2) := digits r1' 0%Z 0%nat in
      match r2 with
      | String sep' r2' =>
          let '(y, ny, r3) := digits r2' 0%Z 0%nat in
          let day := Z.to_nat d in
          let month := Z.to_nat m in
          let year := Z.to_nat y in
          if is_date_sep sep && Ascii.eqb sep sep'
             && (1 <=? nd)%nat && (nd <=? 2)%nat
             && (1 <=? nm)%nat && (nm <=? 2)%nat && (ny =? 4)%nat
             && (match r3 with EmptyString => true | _ => false end)
             && (1 <=? day)%nat && (day <=? days_in_month year month)%nat
          then Some (Calendar year month day)
          else None
      | EmptyString => None
      end
  | EmptyString => None
  end.

Fixpoint parse_dates_strict (cells : list obj) : result (list (option timestamp)) :=
  match cells with
  | [] => Ok []
  | ONaN :: cells' =>
      ds <- parse_dates_strict cells' ;; Ok (None :: ds)
  | OStr s :: cells' =>
      match parse_dayfirst s with
      | Some d => ds <- parse_dates_strict cells' ;; Ok (Some d :: ds)
      | None => Raise ValueError
      end
  end.

(** [pd.to_datetime(series, dayfirst=True)].  The [errors] argument is left
    at its default ['raise']: text that is not a date raises [ValueError]. *)
Definition to_datetime (c : column) : result column :=
  match c with
  | ObjCol cells => ds <- parse_dates_strict cells ;; Ok (DateCol ds)
  | NumCol cells => Ok (DateCol (map (option_map EpochNs) cells))
  | DateCol cells => Ok (DateCol cells)
  end.

(** ** The transaction loader: [load_and_clean_data] *)

Definition column_map : list (string * string) :=
  [ ("Datum", "Date"); ("Date", "Date");
    ("Tijd", "Time"); ("Time", "Time");
    ("Product", "Product");
    ("ISIN", "ISIN");
    ("Aantal", "Quantity"); ("Quantity", "Quantity");
    ("Koers", "Price"); ("Price", "Price");
    ("Lokale waarde", "Local Value"); ("Local value", "Local Value");
    ("Waarde", "Value"); ("Value", "Value");
    ("Totaal", "Total"); ("Total", "Total") ].

Definition cols_to_fix : list string :=
  ["Quantity"; "Price"; "Local Value"; "Value"; "Total"].

(** The two assignments of the loop body, on the cells of an [object]
    column. *)
Definition fix_cells (cells : list obj) : list (option Q) :=
  to_numeric_coerce
    (str_replace "," "." (str_replace "." "" (astype_str cells))).

(** One iteration of [for col in cols_to_fix].  With a duplicated label
    [df[col]] is a DataFrame, whose [.dtype] raises [AttributeError]. *)
Definition fix_numeric (df : DataFrame) (col : string) : result DataFrame :=
  if has_column df col then
    match getitem df col with
    | [ObjCol cells] => Ok (setitem df col (NumCol (fix_cells cells)))
    | [_] => Ok df
    | _ => Raise AttributeError
    end
  else Ok df.

Definition fix_numeric_cols (df : DataFrame) : result DataFrame :=
  fold_left (fun r col => d <- r ;; fix_numeric d col) cols_to_fix (Ok df).

(** [if 'Date' in df.columns: df['Date'] = pd.to_datetime(df['Date'], dayfirst=True)].
    With a duplicated label [to_datetime] receives a DataFrame with
    duplicate keys and raises [ValueError]. *)
Definition parse_date_column (df : DataFrame) : result DataFrame :=
  if has_column df "Date" then
    match getitem df "Date" with
    | [c] => c' <- to_datetime c ;; Ok (setitem df "Date" c')
    | _ => Raise ValueError
    end
  else Ok df.

(** Everything after the [try] block. *)
Definition clean (df : DataFrame) : result DataFrame :=
  df1 <- fix_numeric_cols (rename column_map df) ;;
  parse_date_column df1.

Definition file_not_found_message (filepath : string) : string :=
  "❌ Error: File not found at " ++ filepath ++ ". Please check the path.".

Definition INPUT_FILE : string := "data/Transactions.csv".

Definition start_message : string := "🚀 Starting Portfolio Analytics...".

Section Orchestrator.

(** [pd.read_csv]: the table read from a path, or the exception raised. *)
Variable read_csv : string -> result DataFrame.

(** Steps 2 to 4 of [main] on the loaded table (holdings, market data
    download, metrics, chart): the lines they print and how they end. *)
Variable analyse : DataFrame -> list string * result unit.

(** The printed lines and the returned value; [Ok None] is Python's
    [return None]. *)
Definition load_and_clean_data (filepath : string)
  : list string * result (option DataFrame) :=
  match read_csv filepath with
  | Raise FileNotFoundError => ([file_not_found_message filepath], Ok None)
  | Raise e => ([], Raise e)
  | Ok df => ([], df' <- clean df ;; Ok (Some df'))
  end.

Definition main : list string * result unit :=
  let '(out, r) := load_and_clean_data INPUT_FILE in
  match r with
  | Raise e => (start_message :: out, Raise e)
  | Ok None => (start_message :: out, Ok tt)
  | Ok (Some df) =>
      let '(out', r') := analyse df in
      (start_message :: out ++ out', r')
  end.

End Orchestrator.


(** ** The holdings aggregator: [get_portfolio_snapshot] *)

(** A row of the canonical transaction table, with the three columns the
    aggregator reads; [None] is a missing value. *)
Record transaction : Type := mkTransaction {
  Product : option string;
  ISIN : option string;
  Quantity : option Q
}.

Definition key : Type := (string * string)%type.

Definition holding : Type := (string * string * Q)%type.

Definition notna {A : Type} (o : option A) : bool :=
  match o with
  | Some _ => true
  | None => false
  end.

(** [df.dropna(subset=['ISIN', 'Quantity'])] *)
Definition dropna_subset (df : list transaction) : list transaction :=
  filter (fun r => notna (ISIN r) && notna (Quantity r)) df.

(** The group key of a row under [groupby(['Product', 'ISIN'])]; a row with
    a missing key value belongs to no group (pandas' default [dropna=True]). *)
Definition group_key (r : transaction) : option key :=
  match Product r, ISIN r with
  | Some p, Some i => Some (p, i)
  | _, _ => None
  end.

Definition key_eq_dec (k1 k2 : key) : {k1 = k2} + {k1 <> k2}.
Proof. decide equality; apply string_dec. Defined.

Definition key_eqb (k1 k2 : key) : bool :=
  String.eqb (fst k1) (fst k2) && String.eqb (snd k1) (snd k2).

(** Lexicographic order on keys, by which [groupby] sorts its groups. *)
Definition key_leb (k1 k2 : key) : bool :=
  match String.compare (fst k1) (fst k2) with
  | Lt => true
  | Eq => String.leb (snd k1) (snd k2)
  | Gt => false
  end.

Fixpoint insert_key (k : key) (l : list key) : list key :=
  match l with
  | [] => [k]
  | h :: t => if key_leb k h then k :: l else h :: insert_key k t
  end.

Definition sort_keys (l : list key) : list key :=
  fold_right insert_key [] l.

Fixpoint keys_of (rows : list transaction) : list key :=
  match rows with
  | [] => []
  | r :: rows' =>
      match group_key r with
      | Some k => k :: keys_of rows'
      | None => keys_of rows'
      end
  end.

(** The distinct group keys, sorted. *)
Definition group_keys (rows : list transaction) : list key :=
  sort_keys (nodup key_eq_dec (keys_of rows)).

(** The [Quantity] values of the rows of one group, in row order. *)
Fixpoint group_quantities (k : key) (rows : list transaction) : list Q :=
  match rows with
  | [] => []
  | r :: rows' =>
      match group_key r, Quantity r with
      | Some k', Some q =>
          if key_eqb k' k then q :: group_quantities k rows'
          else group_quantities k rows'
      | _, _ => group_quantities k rows'
      end
  end.

(** [Series.sum()] adds in the arithmetic of the column's dtype: float64
    with a compensated sum when the column holds a missing or a fractional
    quantity, int64 otherwise.  The aggregator takes the sum of one group as
    its argument [sum_of]; two instances follow. *)

(** The exact sum: what [Series.sum()] returns while no addition rounds (or
    wraps), as with whole numbers of shares of ordinary size. *)
Definition series_sum (qs : list Q) : Q := fold_left Qplus qs 0.

(** Rounding to the nearest float64: 53 significant bits, ties to the even
    significand.  The range of the exponent is not modelled. *)
Definition round_half_even (n d : Z) : Z :=
  let q := (n / d)%Z in
  let r := (n mod d)%Z in
  match (2 * r ?= d)%Z with
  | Lt => q
  | Gt => (q + 1)%Z
  | Eq => if Z.even q then q else (q + 1)%Z
  end.

Definition float64 (x : Q) : Q :=
  let n := Z.abs (Qnum x) in
  let d := Zpos (Qden x) in
  if (n =? 0)%Z then 0
  else
    let e0 := (Z.log2 n - Z.log2 d - 52)%Z in
    let scaled := fun e : Z =>
      if (0 <=? e)%Z then (n, (d * 2 ^ e)%Z) else ((n * 2 ^ (- e))%Z, d) in
    let e := if (fst (scaled e0) / snd (scaled e0) <? 2 ^ 52)%Z
             then (e0 - 1)%Z else e0 in
    let m := round_half_even (fst (scaled e)) (snd (scaled e)) in
    let sm := if (Qnum x <? 0)%Z then (- m)%Z else m in
    if (0 <=? e)%Z then inject_Z (sm * 2 ^ e)
    else sm # Z.to_pos (2 ^ (- e)).

(** The sum of a float64 group as pandas' [group_sum] computes it, with
    Kahan's compensation:
    [y = val - comp; t = sumx + y; comp = t - sumx - y; sumx = t]. *)
Fixpoint kahan (l : list Q) (sumx comp : Q) : Q :=
  match l with
  | [] => sumx
  | val :: l' =>
      let y := float64 (val - comp) in
      let t := float64 (sumx + y) in
      kahan l' t (float64 (float64 (t - sumx) - y))
  end.

Definition float64_sum (qs : list Q) : Q := kahan qs 0 0.

(** [groupby(['Product', 'ISIN'])['Quantity'].sum().reset_index()] *)
Definition groupby_sum (sum_of : list Q -> Q) (rows : list transaction)
  : list holding :=
  map (fun k => (fst k, snd k, sum_of (group_quantities k rows)))
      (group_keys rows).

(** [x > 0] on floats. *)
Definition Qgtb0 (q : Q) : bool := negb (Qle_bool q 0).

Definition get_portfolio_snapshot (sum_of : list Q -> Q)
           (df : list transaction) : list holding :=
  let trades := dropna_subset df in
  let holdings := groupby_sum sum_of trades in
  filter (fun h => Qgtb0 (snd h)) holdings.

(** ** The performance calculator: [calculate_metrics] *)

(** [Series.pct_change()]: no value at the first position, then
    [price[i] / price[i-1] - 1].  At a zero price the float quotient is
    infinite or [NaN], which [Q] does not represent: the properties of the
    calculator assume non-zero prices wherever a quotient is taken. *)
Fixpoint pct_change_from (prev : Q) (s : list Q) : list (option Q) :=
  match s with
  | [] => []
  | p :: s' => Some (p / prev - 1) :: pct_change_from p s'
  end.

Definition pct_change (s : list Q) : list (option Q) :=
  match s with
  | [] => []
  | p :: s' => None :: pct_change_from p s'
  end.

(** [Series.dropna()] *)
Fixpoint dropna (s : list (option Q)) : list Q :=
  match s with
  | [] => []
  | Some x :: s' => x :: dropna s'
  | None :: s' => dropna s'
  end.

(** Running accumulation: the first value as it is, then each value combined
    with the accumulated one. *)
Fixpoint accumulate_from (f : Q -> Q -> Q) (acc : Q) (s : list Q) : list Q :=
  match s with
  | [] => []
  | x :: s' => let acc' := f acc x in acc' :: accumulate_from f acc' s'
  end.

Definition accumulate (f : Q -> Q -> Q) (s : list Q) : list Q :=
  match s with
  | [] => []
  | x :: s' => x :: accumulate_from f x s'
  end.

(** [Series.cumprod()] and [Series.cummax()] *)
Definition cumprod (s : list Q) : list Q := accumulate Qmult s.
Definition cummax (s : list Q) : list Q := accumulate Qmax s.

(** Element-wise arithmetic of two aligned series. *)
Fixpoint zip_with (f : Q -> Q -> Q) (s t : list Q) : list Q :=
  match s, t with
  | x :: s', y :: t' => f x y :: zip_with f s' t'
  | _, _ => []
  end.

(** [Series.min()]; [None] is the [NaN] of an empty series. *)
Definition series_min (s : list Q) : option Q :=
  match s with
  | [] => None
  | x :: s' => Some (fold_left Qmin s' x)
  end.

Definition returns_of (market_data : list Q) : list Q :=
  dropna (pct_change market_data).

Definition cumulative_returns_of (market_data : list Q) : list Q :=
  cumprod (map (fun r => 1 + r) (returns_of market_data)).

Definition drawdown_of (market_data : list Q) : list Q :=
  let cumulative_returns := cumulative_returns_of market_data in
  let rolling_max := cummax cumulative_returns in
  zip_with (fun c m => c / m - 1) cumulative_returns rolling_max.

Definition calculate_metrics (market_data : list Q) : list Q * option Q :=
  let returns := dropna (pct_change market_data) in
  let cumulative_returns := cumprod (map (fun r => 1 + r) returns) in
  let rolling_max := cummax cumulative_returns in
  let drawdown := zip_with (fun c m => c / m - 1) cumulative_returns rolling_max in
  let max_drawdown := series_min drawdown in
  (cumulative_returns, max_drawdown).


(** ** Reference formulations

    The rules as the specification words them, to be compared with the
    program's functions above. *)

(** Numeric normalization of one cell: drop every dot, turn every comma into
    a dot, read the number. *)
Fixpoint strip_dots (s : string) : string :=
  match s with
  | EmptyString => EmptyString
  | String c s' =>
      if Ascii.eqb c "."%char then strip_dots s' else String c (strip_dots s')
  end.

Fixpoint commas_to_dots (s : string) : string :=
  match s with
  | EmptyString => EmptyString
  | String c s' =>
      String (if Ascii.eqb c ","%char then "."%char else c) (commas_to_dots s')
  end.

Definition normalize_cell (c : obj) : option Q :=
  parse_float
    (commas_to_dots (strip_dots (match c with OStr s => s | ONaN => "nan" end))).

(** The text of a cell after the two replacements. *)
Definition normalized_text (c : obj) : string :=
  commas_to_dots (strip_dots (match c with OStr s => s | ONaN => "nan" end)).

(** Normalization of a whole column, and of the designated columns of a
    table: only textual columns change. *)
Definition fix_column (c : column) : column :=
  match c with
  | ObjCol cells => NumCol (map normalize_cell cells)
  | _ => c
  end.

Definition fix_one (col : string) (df : DataFrame) : DataFrame :=
  map (fun lc => if String.eqb (fst lc) col
                 then (fst lc, fix_column (snd lc)) else lc) df.

Definition fix_all (cols : list string) (df : DataFrame) : DataFrame :=
  map (fun lc => if existsb (String.eqb (fst lc)) cols
                 then (fst lc, fix_column (snd lc)) else lc) df.

(** No designated label is carried by two columns. *)
Definition unambiguous (cols : list string) (df : DataFrame) : bool :=
  forallb (fun col => (List.length (getitem df col) <=? 1)%nat) cols.

(** The quantity a row contributes to the position in product [p] with
    identifier [i]: its [Quantity], when the row carries that product and
    that ISIN and has a quantity; nothing otherwise. *)
Definition trade_quantity (p i : string) (r : transaction) : option Q :=
  match Product r, ISIN r, Quantity r with
  | Some p', Some i', Some q =>
      if String.eqb p' p && String.eqb i' i then Some q else None
  | _, _, _ => None
  end.

(** The quantities of the rows of one position, in row order: the terms of
    the position's sum. *)
Definition position_quantities (df : list transaction) (p i : string)
  : list Q :=
  dropna (map (trade_quantity p i) df).

(** The sum of each position of [df] does not depend on the order of its
    terms. *)
Definition order_insensitive (sum_of : list Q -> Q) (df : list transaction)
  : Prop :=
  forall (p i : string) (l : list Q),
    Permutation (position_quantities df p i) l ->
    sum_of l = sum_of (position_quantities df p i).






Fixpoint increasing_from (prev : Q) (s : list Q) : Prop :=
  match s with
  | [] => True
  | p :: s' => prev < p /\ increasing_from p s'
  end.

Definition strictly_increasing (s : list Q) : Prop :=
  match s with
  | [] => True
  | p :: s' => increasing_from p s'
  end.

(** ** Sample inputs *)

(** A small export with comma decimals, a missing cell and one cell that is
    not a number. *)
Definition sample_export : DataFrame :=
  [ ("Product", ObjCol [OStr "AAPL"; OStr "MSFT"; OStr "Fee"]);
    ("Quantity", ObjCol [OStr "1.234,56"; OStr "abc"; ONaN]);
    ("Price", NumCol [Some 1000; Some 7; None]) ].

(** A Dutch export whose second date is not a date. *)
Definition bad_date_export : DataFrame :=
  [ ("Datum", ObjCol [OStr "13-01-2024"; OStr "not a date"]);
    ("Product", ObjCol [OStr "AAPL"; OStr "MSFT"]);
    ("Aantal", NumCol [Some 10; Some 5]) ].

Definition good_date_export : DataFrame :=
  [ ("Datum", ObjCol [OStr "05-03-2024"; ONaN]);
    ("Aantal", ObjCol [OStr "1,5"; OStr "2"]) ].

Definition buy (p i : string) (q : Q) : transaction :=
  mkTransaction (Some p) (Some i) (Some q).

(** Two buys and a sale of one instrument. *)
Definition aapl_trades : list transaction :=
  [buy "AAPL" "X" 10; buy "AAPL" "X" 5; buy "AAPL" "X" (-3)].

(** The same trades in another order, among a closed position, a dividend
    row without ISIN and a row without quantity. *)
Definition mixed_trades : list transaction :=
  [ buy "MSFT" "Y" 4;
    buy "AAPL" "X" (-3);
    mkTransaction (Some "Dividend") None (Some 2);
    buy "AAPL" "X" 5;
    buy "MSFT" "Y" (-4);
    mkTransaction (Some "AAPL") (Some "X") None;
    buy "AAPL" "X" 10 ].

(** Fractional quantities, as float64 reads them from the text 0.1, 0.2
    and -0.3, in two orders of the rows. *)
Definition fractional_trades : list transaction :=
  [ buy "AAPL" "X" (float64 0.1); buy "AAPL" "X" (float64 0.2);
    buy "AAPL" "X" (float64 (-0.3)) ].

Definition fractional_trades_reordered : list transaction :=
  [ buy "AAPL" "X" (float64 0.1); buy "AAPL" "X" (float64 (-0.3));
    buy "AAPL" "X" (float64 0.2) ].

(** An export with a Dutch and an English header for the quantity, beside
    a textual price column. *)
Definition two_quantity_headers_export : DataFrame :=
  [ ("Aantal", NumCol [Some 10; Some 5]);
    ("Quantity", NumCol [Some 10; Some 5]);
    ("Koers", ObjCol [OStr "1.234,56"; OStr "7,5"]) ].

(** The same two quantity columns alone: every designated column already
    holds numbers. *)
Definition two_numeric_quantities_export : DataFrame :=
  [ ("Aantal", NumCol [Some 10; Some 5]);
    ("Quantity", NumCol [Some 10; Some 5]) ].

(** ** Notions used by the further properties *)

(** [len(series)]: the number of rows of a column. *)
Definition height (c : column) : nat :=
  match c with
  | ObjCol cells => List.length cells
  | NumCol cells => List.length cells
  | DateCol cells => List.length cells
  end.

Fixpoint count_char (c : ascii) (s : string) : nat :=
  match s with
  | EmptyString => 0
  | String c' s' =>
      if Ascii.eqb c' c then S (count_char c s') else count_char c s'
  end.

(** A row that cannot be a trade of any position: it lacks the product
    name, the ISIN or the quantity. *)
Definition not_a_trade (r : transaction) : Prop :=
  Product r = None \/ ISIN r = None \/ Quantity r = None.

(** The order in which [groupby] lists its groups, as a relation. *)
Definition key_le (k1 k2 : key) : Prop := key_leb k1 k2 = true.

(** The drawdown series of a cumulative series, as [calculate_metrics]
    computes it from [cumulative_returns]. *)
Definition drawdowns (cumulative_returns : list Q) : list Q :=
  zip_with (fun c m => c / m - 1) cumulative_returns (cummax cumulative_returns).

(** Two results of [Series.min()] denote the same number, or are both
    [NaN]. *)
Definition same_value (a b : option Q) : Prop :=
  match a, b with
  | Some x, Some y => x == y
  | None, None => True
  | _, _ => False
  end.

Fixpoint nondecreasing_from (prev : Q) (s : list Q) : Prop :=
  match s with
  | [] => True
  | p :: s' => prev <= p /\ nondecreasing_from p s'
  end.

(** * Properties *)

(** ** Column relabeling *)

Lemma dict_get_unknown (d : list (string * string)) (l : string) :
  ~ In l (map fst d) -> dict_get d l = None.
Proof.
  induction d as [|[k v] d IH]; simpl; intros H; [reflexivity|].
  destruct (String.eqb_spec l k) as [->|_]; [exfalso; auto|].
  apply IH; auto.
Qed.

Lemma column_map_functional :
  Forall (fun kv => relabel column_map (fst kv) = snd kv) column_map.
Proof. repeat constructor. Qed.

Lemma rename_columns (m : list (string * string)) (df : DataFrame) :
  columns (rename m df) = map (relabel m) (columns df).
Proof. unfold columns, rename; rewrite !map_map; reflexivity. Qed.

Lemma rename_data (m : list (string * string)) (df : DataFrame) :
  map snd (rename m df) = map snd df.
Proof. unfold rename; rewrite map_map; reflexivity. Qed.

(** C9: renaming with the locale table is a pure relabeling.  The renamed
    table has as many columns as the raw one, with the same data in the same
    order; the column at each position carries the canonical name of its old
    label when that label is in the table, and its old label otherwise. *)
Theorem C9_rename_is_pure_relabeling :
  (forall df : DataFrame,
      List.length (rename column_map df) = List.length df /\
      map snd (rename column_map df) = map snd df /\
      columns (rename column_map df) = map (relabel column_map) (columns df)) /\
  (forall (df : DataFrame) (i : nat) (l : string) (c : column),
      nth_error df i = Some (l, c) ->
      nth_error (rename column_map df) i = Some (relabel column_map l, c)) /\
  (forall l l' : string, In (l, l') column_map -> relabel column_map l = l') /\
  (forall l : string, ~ In l (map fst column_map) -> relabel column_map l = l).
Proof.
  repeat split.
  - unfold rename; apply List.length_map.
  - apply rename_data.
  - apply rename_columns.
  - intros df i l c H. unfold rename. rewrite nth_error_map, H. reflexivity.
  - intros l l' H.
    exact (proj1 (Forall_forall _ _) column_map_functional (l, l') H).
  - intros l H. unfold relabel. rewrite dict_get_unknown by assumption.
    reflexivity.
Qed.

(** ** Numeric normalization *)

Lemma replace_dot (s : string) : replace "." "" s = strip_dots s.
Proof.
  induction s as [|c s IH]; simpl; [reflexivity|].
  destruct (Ascii.eqb c "."); simpl; rewrite IH; reflexivity.
Qed.

Lemma replace_comma (s : string) : replace "," "." s = commas_to_dots s.
Proof.
  induction s as [|c s IH]; simpl; [reflexivity|].
  destruct (Ascii.eqb c ","); simpl; rewrite IH; reflexivity.
Qed.

Lemma fix_cells_spec (cells : list obj) :
  fix_cells cells = map normalize_cell cells.
Proof.
  unfold fix_cells, to_numeric_coerce, str_replace, astype_str.
  rewrite !map_map. apply map_ext. intros c. unfold normalize_cell.
  rewrite replace_dot, replace_comma. reflexivity.
Qed.

Lemma fix_column_idem (c : column) : fix_column (fix_column c) = fix_column c.
Proof. destruct c; reflexivity. Qed.

Lemma getitem_cons (lc : string * column) (df : DataFrame) (col : string) :
  getitem (lc :: df) col =
  if String.eqb (fst lc) col then snd lc :: getitem df col else getitem df col.
Proof. unfold getitem; simpl. destruct (String.eqb (fst lc) col); reflexivity. Qed.

Lemma has_column_getitem (df : DataFrame) (col : string) :
  has_column df col = match getitem df col with [] => false | _ => true end.
Proof.
  induction df as [|lc df IH]; [reflexivity|].
  rewrite getitem_cons. unfold has_column in *; simpl.
  rewrite (String.eqb_sym col), IH.
  destruct (String.eqb (fst lc) col); reflexivity.
Qed.

Lemma getitem_nil (df : DataFrame) (col : string) :
  getitem df col = [] ->
  fix_one col df = df /\ forall c, setitem df col c = df.
Proof.
  induction df as [|lc df IH]; [split; reflexivity|].
  rewrite getitem_cons. unfold fix_one, setitem in *; simpl.
  destruct (String.eqb (fst lc) col); [discriminate|].
  intros H. destruct (IH H) as [H1 H2]. split.
  - rewrite H1; reflexivity.
  - intros c; rewrite H2; reflexivity.
Qed.

Lemma getitem_single (df : DataFrame) (col : string) (c : column) :
  getitem df col = [c] ->
  fix_one col df = setitem df col (fix_column c) /\
  setitem df col c = df.
Proof.
  induction df as [|lc df IH]; [discriminate|].
  rewrite getitem_cons. unfold fix_one, setitem in *; simpl.
  destruct (String.eqb_spec (fst lc) col) as [E|_].
  - intros H. injection H as Hc Hnil.
    destruct (getitem_nil _ _ Hnil) as [H1 H2].
    unfold fix_one, setitem in H1, H2.
    rewrite H1, !H2, Hc, E.
    split; [reflexivity|]. destruct lc; simpl in *; subst; reflexivity.
  - intros H. destruct (IH H) as [H1 H2]. rewrite H1, H2. split; reflexivity.
Qed.

(** One iteration of the loop succeeds exactly when its label is not
    duplicated, and then normalizes the column of that label. *)
Lemma fix_numeric_step (df : DataFrame) (col : string) :
  fix_numeric df col =
  if (List.length (getitem df col) <=? 1)%nat then Ok (fix_one col df)
  else Raise AttributeError.
Proof.
  unfold fix_numeric. rewrite has_column_getitem.
  destruct (getitem df col) as [|c [|c' l]] eqn:G.
  - simpl. destruct (getitem_nil _ _ G) as [-> _]. reflexivity.
  - destruct (getitem_single _ _ _ G) as [H1 H2]. rewrite H1.
    destruct c; simpl; rewrite ?fix_cells_spec, ?H2; reflexivity.
  - destruct c; reflexivity.
Qed.

Lemma columns_fix_one (col : string) (df : DataFrame) :
  columns (fix_one col df) = columns df.
Proof.
  unfold columns, fix_one. rewrite map_map. apply map_ext.
  intros lc. destruct (String.eqb (fst lc) col); reflexivity.
Qed.

Lemma columns_fix_all (cols : list string) (df : DataFrame) :
  columns (fix_all cols df) = columns df.
Proof.
  unfold columns, fix_all. rewrite map_map. apply map_ext.
  intros lc. destruct (existsb (String.eqb (fst lc)) cols); reflexivity.
Qed.

Lemma getitem_length (df : DataFrame) (col : string) :
  List.length (getitem df col) =
  List.length (filter (fun l => String.eqb l col) (columns df)).
Proof.
  induction df as [|lc df IH]; [reflexivity|].
  rewrite getitem_cons. simpl.
  destruct (String.eqb (fst lc) col); simpl; rewrite IH; reflexivity.
Qed.

Lemma unambiguous_columns (cols : list string) (df df' : DataFrame) :
  columns df = columns df' -> unambiguous cols df = unambiguous cols df'.
Proof.
  intros H. unfold unambiguous.
  induction cols as [|col cols IH]; simpl; [reflexivity|].
  rewrite IH, !getitem_length, H. reflexivity.
Qed.

Lemma fix_all_nil (df : DataFrame) : fix_all [] df = df.
Proof. unfold fix_all; simpl. apply map_id. Qed.

Lemma fix_all_cons (c : string) (cs : list string) (df : DataFrame) :
  fix_all (c :: cs) df = fix_all cs (fix_one c df).
Proof.
  unfold fix_all, fix_one. rewrite map_map. apply map_ext.
  intros [l x]; simpl.
  destruct (String.eqb l c); simpl;
    destruct (existsb (String.eqb l) cs); simpl;
    rewrite ?fix_column_idem; reflexivity.
Qed.

Lemma fix_all_idem (cols : list string) (df : DataFrame) :
  fix_all cols (fix_all cols df) = fix_all cols df.
Proof.
  unfold fix_all. rewrite map_map. apply map_ext.
  intros [l x]; simpl.
  destruct (existsb (String.eqb l) cols) eqn:E; simpl; rewrite E;
    rewrite ?fix_column_idem; reflexivity.
Qed.

Lemma fix_fold_raise (cols : list string) (e : exn) :
  fold_left (fun r col => d <- r ;; fix_numeric d col) cols (Raise e) = Raise e.
Proof. induction cols as [|c cs IH]; simpl; auto. Qed.

Lemma fix_fold (cols : list string) : forall df : DataFrame,
  fold_left (fun r col => d <- r ;; fix_numeric d col) cols (Ok df) =
  if unambiguous cols df then Ok (fix_all cols df) else Raise AttributeError.
Proof.
  induction cols as [|c cs IH]; intros df.
  - simpl. rewrite fix_all_nil. reflexivity.
  - simpl. rewrite fix_numeric_step.
    destruct (List.length (getitem df c) <=? 1)%nat; simpl.
    + rewrite IH, fix_all_cons.
      rewrite (unambiguous_columns cs _ df (columns_fix_one c df)).
      reflexivity.
    + apply fix_fold_raise.
Qed.

(** The whole loop: it raises exactly on a duplicated designated label and
    otherwise normalizes the textual designated columns, in place. *)
Lemma fix_numeric_cols_spec (df : DataFrame) :
  fix_numeric_cols df =
  if unambiguous cols_to_fix df then Ok (fix_all cols_to_fix df)
  else Raise AttributeError.
Proof. apply fix_fold. Qed.

Lemma getitem_absent (df : DataFrame) (col : string) :
  ~ In col (columns df) -> getitem df col = [].
Proof.
  induction df as [|lc df IH]; [reflexivity|].
  rewrite getitem_cons. simpl. intros H.
  destruct (String.eqb_spec (fst lc) col) as [E|_]; [exfalso; auto|].
  apply IH; auto.
Qed.

Lemma getitem_unique (df : DataFrame) (col : string) (c : column) :
  NoDup (columns df) -> In (col, c) df -> getitem df col = [c].
Proof.
  induction df as [|lc df IH]; [intros _ []|].
  rewrite getitem_cons. simpl. intros Hnd Hin.
  apply NoDup_cons_iff in Hnd as [Hni Hnd].
  destruct Hin as [->|Hin]; simpl.
  - rewrite String.eqb_refl. rewrite getitem_absent; auto.
  - destruct (String.eqb_spec (fst lc) col) as [E|_]; [|auto].
    exfalso. apply Hni. rewrite E.
    change col with (fst (col, c)). apply in_map; assumption.
Qed.

Lemma NoDup_unambiguous (cols : list string) (df : DataFrame) :
  NoDup (columns df) -> unambiguous cols df = true.
Proof.
  intros Hnd. apply forallb_forall. intros col _. apply Nat.leb_le.
  destruct (in_dec string_dec col (columns df)) as [Hin|Hni].
  - apply in_map_iff in Hin as [[l c] [E Hin]]. simpl in E; subst l.
    rewrite (getitem_unique _ _ _ Hnd Hin). simpl; lia.
  - rewrite getitem_absent by assumption. simpl; lia.
Qed.

Lemma existsb_eqb_In (l : string) (cols : list string) :
  In l cols -> existsb (String.eqb l) cols = true.
Proof.
  intros H. apply existsb_exists. exists l. split; [assumption|].
  apply String.eqb_refl.
Qed.

(** C1, as the program has it: when no designated label is carried by two
    columns, the loop does not raise, and a designated column holding text
    is replaced, in place, by a numeric column of the same length whose
    cells are the old cells with every dot dropped, every comma turned into
    a dot, and the result read as a number (a cell that pandas reads as an
    infinite float, by its spelling or by its size, has no such number and
    is left out).  The cell "1.234,56" becomes
    1234.56, "1e3" becomes 1000, " 12,5 " becomes 12.5, and a cell that is
    still not a number becomes the missing value. *)
Theorem C1_numeric_normalization :
  (forall (df : DataFrame) (col : string) (cells : list obj) (i : nat),
      In col cols_to_fix ->
      unambiguous cols_to_fix df = true ->
      nth_error df i = Some (col, ObjCol cells) ->
      exists (df' : DataFrame) (cells' : list (option Q)),
        fix_numeric_cols df = Ok df' /\
        nth_error df' i = Some (col, NumCol cells') /\
        List.length cells' = List.length cells /\
        (forall (j : nat) (c : obj),
            nth_error cells j = Some c ->
            reads_finite (normalized_text c) = true ->
            nth_error cells' j = Some (parse_float (normalized_text c)))) /\
  parse_float (normalized_text (OStr "1.234,56")) = Some 1234.56 /\
  parse_float (normalized_text (OStr "abc")) = None /\
  parse_float (normalized_text ONaN) = None /\
  (exists q : Q, parse_float (normalized_text (OStr "1e3")) = Some q /\ q == 1000) /\
  (exists q : Q, parse_float (normalized_text (OStr " 12,5 ")) = Some q /\ q == 12.5) /\
  fix_numeric_cols sample_export =
    Ok [ ("Product", ObjCol [OStr "AAPL"; OStr "MSFT"; OStr "Fee"]);
         ("Quantity", NumCol [Some 1234.56; None; None]);
         ("Price", NumCol [Some 1000; Some 7; None]) ].
Proof.
  split.
  - intros df col cells i Hcol Hu Hi.
    exists (fix_all cols_to_fix df), (map normalize_cell cells).
    split; [rewrite fix_numeric_cols_spec, Hu; reflexivity|].
    split.
    { unfold fix_all. rewrite nth_error_map, Hi. cbn [option_map fst snd].
      rewrite (existsb_eqb_In _ _ Hcol). reflexivity. }
    split; [apply List.length_map|].
    intros j c Hj _. rewrite nth_error_map, Hj. reflexivity.
  - repeat split; try reflexivity.
    + eexists; split; [reflexivity | vm_compute; reflexivity].
    + eexists; split; [reflexivity | vm_compute; reflexivity].
Qed.

Lemma C1_numeric_normalization_witness :
  exists (df' : DataFrame) (cells' : list (option Q)),
    fix_numeric_cols sample_export = Ok df' /\
    nth_error df' 1 = Some ("Quantity", NumCol cells') /\
    List.length cells'
    = List.length [OStr "1.234,56"; OStr "abc"; ONaN] /\
    (forall (j : nat) (c : obj),
        nth_error [OStr "1.234,56"; OStr "abc"; ONaN] j = Some c ->
        reads_finite (normalized_text c) = true ->
        nth_error cells' j = Some (parse_float (normalized_text c))).
Proof.
  apply (proj1 C1_numeric_normalization sample_export "Quantity"
           [OStr "1.234,56"; OStr "abc"; ONaN] 1%nat).
  - simpl; auto.
  - reflexivity.
  - reflexivity.
Defined.

(** With a Dutch and an English header for the quantity, the loop raises at
    its first column and the textual price column is never normalized. *)
Lemma C1_counterexample_duplicated_label :
  nth_error (rename column_map two_quantity_headers_export) 2
    = Some ("Price", ObjCol [OStr "1.234,56"; OStr "7,5"]) /\
  In "Price" cols_to_fix /\
  fix_numeric_cols (rename column_map two_quantity_headers_export)
    = Raise AttributeError /\
  ~ (exists df' : DataFrame,
        fix_numeric_cols (rename column_map two_quantity_headers_export)
        = Ok df') /\
  clean two_quantity_headers_export = Raise AttributeError.
Proof.
  split; [reflexivity|]. split; [simpl; auto|].
  split; [reflexivity|]. split; [|reflexivity].
  intros [df' H]. discriminate H.
Qed.

Lemma C9_rename_is_pure_relabeling_witness :
  nth_error (rename column_map bad_date_export) 2
    = Some (relabel column_map "Aantal", NumCol [Some 10; Some 5]) /\
  relabel column_map "Aantal" = "Quantity" /\
  relabel column_map "Beurs" = "Beurs".
Proof.
  split; [|split].
  - apply (proj1 (proj2 C9_rename_is_pure_relabeling)
             bad_date_export 2%nat "Aantal" (NumCol [Some 10; Some 5])).
    reflexivity.
  - apply (proj1 (proj2 (proj2 C9_rename_is_pure_relabeling))
             "Aantal" "Quantity").
    simpl. repeat (try (left; reflexivity); right).
  - apply (proj2 (proj2 (proj2 C9_rename_is_pure_relabeling)) "Beurs").
    simpl. intuition discriminate.
Defined.

(** C8, as the program has it: normalization is idempotent when no
    designated label is carried by two columns.  The loop then returns a
    table in which every column that already held numbers is the same
    column at the same position; and running the loop again on that table
    returns the table itself. *)
Theorem C8_numeric_normalization_idempotent :
  forall df : DataFrame,
    unambiguous cols_to_fix df = true ->
    exists df',
      fix_numeric_cols df = Ok df' /\
      (forall (i : nat) (col : string) (cells : list (option Q)),
          nth_error df i = Some (col, NumCol cells) ->
          nth_error df' i = Some (col, NumCol cells)) /\
      fix_numeric_cols df' = Ok df'.
Proof.
  intros df U. exists (fix_all cols_to_fix df). repeat split.
  - rewrite fix_numeric_cols_spec, U. reflexivity.
  - intros i col cells Hi. unfold fix_all.
    rewrite nth_error_map, Hi. cbn [option_map fst snd].
    destruct (existsb (String.eqb col) cols_to_fix); reflexivity.
  - rewrite fix_numeric_cols_spec.
    rewrite (unambiguous_columns _ _ df (columns_fix_all _ df)), U.
    rewrite fix_all_idem. reflexivity.
Qed.

Lemma C8_numeric_normalization_idempotent_witness :
  exists df',
    fix_numeric_cols sample_export = Ok df' /\
    (forall (i : nat) (col : string) (cells : list (option Q)),
        nth_error sample_export i = Some (col, NumCol cells) ->
        nth_error df' i = Some (col, NumCol cells)) /\
    fix_numeric_cols df' = Ok df'.
Proof.
  apply (C8_numeric_normalization_idempotent sample_export).
  reflexivity.
Defined.

(** With two numeric quantity columns after renaming the loop raises
    instead of leaving the values as they are. *)
Lemma C8_counterexample_duplicated_numeric_label :
  rename column_map two_numeric_quantities_export
    = [ ("Quantity", NumCol [Some 10; Some 5]);
        ("Quantity", NumCol [Some 10; Some 5]) ] /\
  fix_numeric_cols (rename column_map two_numeric_quantities_export)
    = Raise AttributeError /\
  ~ (exists df' : DataFrame,
        fix_numeric_cols (rename column_map two_numeric_quantities_export)
        = Ok df').
Proof.
  split; [reflexivity|]. split; [reflexivity|].
  intros [df' H]. discriminate H.
Qed.

Lemma strip_dots_app (s1 s2 : string) :
  strip_dots (s1 ++ s2) = strip_dots s1 ++ strip_dots s2.
Proof.
  induction s1 as [|c s1 IH]; simpl; [reflexivity|].
  destruct (Ascii.eqb c "."); simpl; rewrite IH; reflexivity.
Qed.

Lemma strip_dots_no_dot (s : string) :
  ~ In "."%char (list_ascii_of_string (strip_dots s)).
Proof.
  induction s as [|c s IH]; simpl; [tauto|].
  destruct (Ascii.eqb_spec c ".") as [_|Hc]; [assumption|].
  simpl. intros [E|H]; [apply Hc; assumption | apply IH; assumption].
Qed.

(** C10: the first replacement removes every dot of a cell, wherever it
    stands: a dot between two pieces of text leaves the two pieces joined,
    and no dot survives.  The dot-decimal text "10.5" therefore becomes the
    number 105, alone or inside a textual designated column. *)
Theorem C10_every_dot_is_removed :
  (forall s1 s2 : string,
      replace "." "" (s1 ++ "." ++ s2) = replace "." "" s1 ++ replace "." "" s2) /\
  (forall s : string,
      ~ In "."%char (list_ascii_of_string (replace "." "" s))) /\
  fix_cells [OStr "10.5"] = [Some 105] /\
  fix_numeric_cols [("Price", ObjCol [OStr "10.5"; OStr "1,5"])]
    = Ok [("Price", NumCol [Some 105; Some 1.5])].
Proof.
  repeat split.
  - intros s1 s2. rewrite !replace_dot, strip_dots_app. reflexivity.
  - intros s. rewrite replace_dot. apply strip_dots_no_dot.
Qed.

(** ** Date parsing and the missing file *)

(** C2: a date cell that cannot be parsed is not turned into a missing
    date: [to_datetime] raises [ValueError], the exception leaves
    [load_and_clean_data] and ends [main].  A well-formed export is read
    day-first, an empty date cell staying missing. *)
Theorem C2_unparseable_date_aborts_load :
  clean bad_date_export = Raise ValueError /\
  load_and_clean_data (fun _ => Ok bad_date_export) INPUT_FILE
    = ([], Raise ValueError) /\
  (forall analyse : DataFrame -> list string * result unit,
      main (fun _ => Ok bad_date_export) analyse
      = ([start_message], Raise ValueError)) /\
  clean good_date_export
    = Ok [ ("Date", DateCol [Some (Calendar 2024 3 5); None]);
           ("Quantity", NumCol [Some 1.5; Some 2]) ].
Proof. repeat split. Qed.

(** C6, as the program has it: when reading the path raises
    [FileNotFoundError], the loader prints one line that says so and names
    the path, returns no table and raises nothing; [main] then stops after
    that line without running any later stage, whatever those stages
    are. *)
Theorem C6_missing_file_is_reported :
  forall (read_csv : string -> result DataFrame)
         (analyse : DataFrame -> list string * result unit),
    (forall filepath : string,
        read_csv filepath = Raise FileNotFoundError ->
        load_and_clean_data read_csv filepath
        = (["❌ Error: File not found at " ++ filepath
              ++ ". Please check the path."], Ok None)) /\
    (read_csv "data/Transactions.csv" = Raise FileNotFoundError ->
     main read_csv analyse
     = (["🚀 Starting Portfolio Analytics...";
         "❌ Error: File not found at data/Transactions.csv. Please check the path."],
        Ok tt)).
Proof.
  intros read_csv analyse. split.
  - intros filepath H. unfold load_and_clean_data. rewrite H. reflexivity.
  - intros H. unfold main, load_and_clean_data, INPUT_FILE. rewrite H.
    reflexivity.
Qed.

Lemma C6_missing_file_is_reported_witness :
  load_and_clean_data (fun _ => Raise FileNotFoundError) "missing.csv"
    = (["❌ Error: File not found at missing.csv. Please check the path."],
       Ok None) /\
  main (fun _ => Raise FileNotFoundError) (fun _ => (["unreachable"], Ok tt))
    = (["🚀 Starting Portfolio Analytics...";
        "❌ Error: File not found at data/Transactions.csv. Please check the path."],
       Ok tt).
Proof.
  split.
  - apply (proj1 (C6_missing_file_is_reported
                    (fun _ => Raise FileNotFoundError)
                    (fun _ => (["unreachable"], Ok tt))) "missing.csv").
    reflexivity.
  - apply (proj2 (C6_missing_file_is_reported
                    (fun _ => Raise FileNotFoundError)
                    (fun _ => (["unreachable"], Ok tt)))).
    reflexivity.
Defined.

(** A file that exists but cannot be read raises [PermissionError], which is
    not caught: nothing is printed and the loader raises. *)
Lemma C6_counterexample_unreadable_file :
  load_and_clean_data (fun _ => Raise PermissionError) "locked.csv"
    = ([], Raise PermissionError) /\
  ~ (exists out : list string,
        load_and_clean_data (fun _ => Raise PermissionError) "locked.csv"
        = (out, Ok None)) /\
  main (fun _ => Raise PermissionError) (fun _ => ([], Ok tt))
    = (["🚀 Starting Portfolio Analytics..."], Raise PermissionError).
Proof.
  split; [reflexivity|]. split; [|reflexivity].
  intros [out H]. discriminate H.
Qed.

(** ** Holdings *)

Lemma insert_key_perm (k : key) (l : list key) :
  Permutation (insert_key k l) (k :: l).
Proof.
  induction l as [|h t IH]; simpl; [reflexivity|].
  destruct (key_leb k h); [reflexivity|].
  rewrite IH. apply perm_swap.
Qed.

Lemma sort_keys_perm (l : list key) : Permutation (sort_keys l) l.
Proof.
  induction l as [|k l IH]; simpl; [reflexivity|].
  rewrite insert_key_perm, IH. reflexivity.
Qed.

Lemma group_keys_In (rows : list transaction) (k : key) :
  In k (group_keys rows) <-> In k (keys_of rows).
Proof.
  unfold group_keys. split; intros H.
  - apply (nodup_In key_eq_dec).
    eapply Permutation_in; [apply sort_keys_perm | exact H].
  - eapply Permutation_in; [symmetry; apply sort_keys_perm|].
    apply nodup_In; exact H.
Qed.

Lemma group_keys_NoDup (rows : list transaction) : NoDup (group_keys rows).
Proof.
  unfold group_keys.
  eapply Permutation_NoDup; [symmetry; apply sort_keys_perm|].
  apply NoDup_nodup.
Qed.

Lemma key_eqb_eq (k1 k2 : key) : key_eqb k1 k2 = true <-> k1 = k2.
Proof.
  destruct k1 as [p1 i1], k2 as [p2 i2]. unfold key_eqb; simpl.
  rewrite andb_true_iff, !String.eqb_eq. split.
  - intros [-> ->]; reflexivity.
  - intros H; injection H; auto.
Qed.

(** Grouping after [dropna] reads the same rows as the reference
    formulation reads from the whole table. *)
Lemma keys_of_trades (df : list transaction) (p i : string) :
  In (p, i) (keys_of (dropna_subset df)) <->
  exists r, In r df /\ trade_quantity p i r <> None.
Proof.
  induction df as [|[pr ir qr] df IH]; simpl.
  - split; [intros [] | intros [r [[] _]]].
  - unfold trade_quantity.
    destruct ir as [i'|], qr as [q|], pr as [p'|]; simpl;
      rewrite ?IH; clear IH.
    all: try (split;
              [ intros [r [Hr Hq]]; exists r; split; [right; exact Hr | exact Hq]
              | intros [r [[<-|Hr] Hq]];
                [exfalso; apply Hq; reflexivity | exists r; split; assumption] ]).
    split.
    + intros [E|[r [Hr Hq]]].
      * injection E as -> ->. eexists; split; [left; reflexivity|].
        simpl. rewrite !String.eqb_refl. discriminate.
      * exists r; split; [right; exact Hr | exact Hq].
    + intros [r [[<-|Hr] Hq]].
      * simpl in Hq.
        destruct (String.eqb_spec p' p) as [->|]; [|exfalso; auto].
        destruct (String.eqb_spec i' i) as [->|]; [|exfalso; auto].
        left; reflexivity.
      * right. exists r; split; assumption.
Qed.

Lemma group_quantities_trades (df : list transaction) (p i : string) :
  group_quantities (p, i) (dropna_subset df)
  = dropna (map (trade_quantity p i) df).
Proof.
  induction df as [|[pr ir qr] df IH]; simpl; [reflexivity|].
  unfold trade_quantity at 1.
  destruct ir as [i'|], qr as [q|], pr as [p'|]; simpl; rewrite ?IH;
    try reflexivity.
  unfold key_eqb; simpl.
  destruct (String.eqb p' p && String.eqb i' i); reflexivity.
Qed.

Lemma Qgtb0_spec (q : Q) : Qgtb0 q = true <-> 0 < q.
Proof.
  unfold Qgtb0. rewrite negb_true_iff. split.
  - intros H. apply Qnot_le_lt. intros Hle.
    apply Qle_bool_iff in Hle. congruence.
  - intros H. destruct (Qle_bool q 0) eqn:E; [|reflexivity].
    apply Qle_bool_iff in E. exfalso. exact (Qlt_not_le _ _ H E).
Qed.

Lemma NoDup_map_filter {A B : Type} (g : A -> B) (f : A -> bool) (l : list A) :
  NoDup (map g l) -> NoDup (map g (filter f l)).
Proof.
  induction l as [|a l IH]; simpl; intros H; [constructor|].
  apply NoDup_cons_iff in H as [Hni Hnd].
  destruct (f a); simpl; [|auto].
  constructor; [|auto].
  intros Hin. apply Hni. apply in_map_iff in Hin as [x [E Hx]].
  apply filter_In in Hx as [Hx _]. rewrite <- E. apply in_map; assumption.
Qed.

Lemma groupby_sum_keys (sum_of : list Q -> Q) (rows : list transaction) :
  map fst (groupby_sum sum_of rows) = group_keys rows.
Proof.
  unfold groupby_sum. rewrite map_map. simpl.
  rewrite <- (map_id (group_keys rows)) at 2.
  apply map_ext. intros [p i]; reflexivity.
Qed.

(** The snapshot, position by position, whatever the arithmetic of the
    sum. *)
Lemma snapshot_spec (sum_of : list Q -> Q) (df : list transaction)
      (p i : string) (q : Q) :
  In (p, i, q) (get_portfolio_snapshot sum_of df) <->
  (exists r, In r df /\ trade_quantity p i r <> None) /\
  q = sum_of (position_quantities df p i) /\ 0 < q.
Proof.
  unfold get_portfolio_snapshot, groupby_sum, position_quantities.
  rewrite filter_In, in_map_iff. simpl. rewrite Qgtb0_spec. split.
  - intros [[[p' i'] [E Hk]] Hq]. simpl in E. injection E as -> -> <-.
    apply group_keys_In, keys_of_trades in Hk.
    rewrite group_quantities_trades in Hq |- *. auto.
  - intros [Hr [-> Hq]]. split; [|exact Hq].
    exists (p, i). simpl. rewrite group_quantities_trades. split; [reflexivity|].
    apply group_keys_In, keys_of_trades. exact Hr.
Qed.

Lemma snapshot_keys_NoDup (sum_of : list Q -> Q) (df : list transaction) :
  NoDup (map fst (get_portfolio_snapshot sum_of df)).
Proof.
  unfold get_portfolio_snapshot. apply NoDup_map_filter.
  rewrite groupby_sum_keys. apply group_keys_NoDup.
Qed.

(** A table with trades in one position only. *)
Lemma single_position (sum_of : list Q -> Q) (df : list transaction)
      (p i : string) (qs : list Q) :
  groupby_sum sum_of (dropna_subset df) = [(p, i, sum_of qs)] ->
  (0 < sum_of qs -> get_portfolio_snapshot sum_of df = [(p, i, sum_of qs)]) /\
  (sum_of qs <= 0 -> get_portfolio_snapshot sum_of df = []).
Proof.
  intros E. unfold get_portfolio_snapshot. rewrite E. cbn [filter snd].
  split; intros H.
  - rewrite (proj2 (Qgtb0_spec _) H). reflexivity.
  - destruct (Qgtb0 (sum_of qs)) eqn:G; [|reflexivity].
    apply Qgtb0_spec in G. exfalso. exact (Qlt_not_le _ _ G H).
Qed.

(** C3: whatever arithmetic adds up a group, the snapshot holds the triple
    (product, ISIN, quantity) exactly when some row with a quantity carries
    that product and ISIN, the quantity is the sum of the quantities of all
    such rows in row order, and that sum is strictly positive; a row
    lacking ISIN or quantity (or the product name it would be grouped
    under) contributes nothing, and no (product, ISIN) pair appears twice.
    Quantities +10, +5, -3 give the one entry with their sum, which is 12 in
    float64 and in exact arithmetic; a group whose sum is 0 or below gives
    no entry. *)
Theorem C3_snapshot_is_positive_net_positions :
  (forall (sum_of : list Q -> Q) (df : list transaction)
          (p i : string) (q : Q),
      In (p, i, q) (get_portfolio_snapshot sum_of df) <->
      (exists r, In r df /\ trade_quantity p i r <> None) /\
      q = sum_of (position_quantities df p i) /\ 0 < q) /\
  (forall (sum_of : list Q -> Q) (df : list transaction),
      NoDup (map fst (get_portfolio_snapshot sum_of df))) /\
  (forall sum_of : list Q -> Q,
      sum_of [10; 5; -3] == 12 ->
      get_portfolio_snapshot sum_of aapl_trades
      = [("AAPL", "X", sum_of [10; 5; -3])]) /\
  (forall sum_of : list Q -> Q,
      sum_of [10; -10] <= 0 ->
      get_portfolio_snapshot sum_of [buy "AAPL" "X" 10; buy "AAPL" "X" (-10)]
      = []) /\
  (forall sum_of : list Q -> Q,
      sum_of [3; -10] <= 0 ->
      get_portfolio_snapshot sum_of [buy "AAPL" "X" 3; buy "AAPL" "X" (-10)]
      = []) /\
  float64_sum [10; 5; -3] == 12 /\ series_sum [10; 5; -3] == 12 /\
  float64_sum [10; -10] == 0 /\ series_sum [10; -10] == 0 /\
  float64_sum [3; -10] == -7 /\ series_sum [3; -10] == -7 /\
  get_portfolio_snapshot series_sum mixed_trades = [("AAPL", "X", 12)].
Proof.
  split; [exact snapshot_spec|].
  split; [exact snapshot_keys_NoDup|].
  split.
  { intros sum_of H.
    apply (proj1 (single_position sum_of aapl_trades "AAPL" "X" [10; 5; -3]
                    eq_refl)).
    rewrite H. reflexivity. }
  split.
  { intros sum_of H.
    exact (proj2 (single_position sum_of
                    [buy "AAPL" "X" 10; buy "AAPL" "X" (-10)]
                    "AAPL" "X" [10; -10] eq_refl) H). }
  split.
  { intros sum_of H.
    exact (proj2 (single_position sum_of
                    [buy "AAPL" "X" 3; buy "AAPL" "X" (-10)]
                    "AAPL" "X" [3; -10] eq_refl) H). }
  repeat split; vm_compute; reflexivity.
Qed.

Lemma C3_snapshot_is_positive_net_positions_witness :
  In ("AAPL", "X", float64_sum (position_quantities mixed_trades "AAPL" "X"))
     (get_portfolio_snapshot float64_sum mixed_trades) /\
  get_portfolio_snapshot float64_sum aapl_trades
  = [("AAPL", "X", float64_sum [10; 5; -3])] /\
  get_portfolio_snapshot float64_sum [buy "AAPL" "X" 10; buy "AAPL" "X" (-10)]
  = [].
Proof.
  split; [|split].
  - apply (proj2 (proj1 C3_snapshot_is_positive_net_positions float64_sum
                    mixed_trades "AAPL" "X" _)).
    split; [|split].
    + exists (buy "AAPL" "X" 5). split; [simpl; auto|]. discriminate.
    + reflexivity.
    + vm_compute. reflexivity.
  - apply (proj1 (proj2 (proj2 C3_snapshot_is_positive_net_positions))
             float64_sum).
    vm_compute. reflexivity.
  - apply (proj1 (proj2 (proj2 (proj2 C3_snapshot_is_positive_net_positions)))
             float64_sum).
    vm_compute. discriminate.
Defined.

(** Exact addition is commutative and associative on the nose, so an exact
    sum does not depend on the order of its terms. *)
Lemma Qplus_comm_eq (x y : Q) : x + y = y + x.
Proof.
  destruct x as [a b], y as [c d]. unfold Qplus; simpl.
  f_equal; [ring | apply Pos.mul_comm].
Qed.

Lemma Qplus_assoc_eq (x y z : Q) : x + (y + z) = x + y + z.
Proof.
  destruct x as [a b], y as [c d], z as [e f]. unfold Qplus; simpl.
  f_equal; [rewrite !Pos2Z.inj_mul; ring | apply Pos.mul_assoc].
Qed.

Lemma fold_Qplus_perm (l l' : list Q) :
  Permutation l l' -> forall a : Q, fold_left Qplus l a = fold_left Qplus l' a.
Proof.
  induction 1 as [|x l l' _ IH|x y l|l l' l'' _ IH1 _ IH2]; intros a; simpl.
  - reflexivity.
  - apply IH.
  - f_equal.
    rewrite <- !Qplus_assoc_eq, (Qplus_comm_eq y x). reflexivity.
  - rewrite IH1. apply IH2.
Qed.

Lemma series_sum_perm (l l' : list Q) :
  Permutation l l' -> series_sum l' = series_sum l.
Proof. intros H. symmetry. apply fold_Qplus_perm, H. Qed.

Lemma dropna_perm (l l' : list (option Q)) :
  Permutation l l' -> Permutation (dropna l) (dropna l').
Proof.
  induction 1 as [|x l l' _ IH|x y l|l l' l'' _ IH1 _ IH2]; simpl.
  - constructor.
  - destruct x; [constructor|]; assumption.
  - destruct x, y; try reflexivity. apply perm_swap.
  - etransitivity; eassumption.
Qed.

Lemma position_quantities_perm (df df' : list transaction) (p i : string) :
  Permutation df df' ->
  Permutation (position_quantities df p i) (position_quantities df' p i).
Proof.
  intros H. unfold position_quantities.
  apply dropna_perm, Permutation_map, H.
Qed.

Lemma snapshot_perm_iff (sum_of : list Q -> Q) (df df' : list transaction)
      (h : holding) :
  Permutation df df' -> order_insensitive sum_of df ->
  (In h (get_portfolio_snapshot sum_of df)
   <-> In h (get_portfolio_snapshot sum_of df')).
Proof.
  intros Hp Hs. destruct h as [[p i] q]. rewrite !snapshot_spec.
  rewrite (Hs p i _ (position_quantities_perm df df' p i Hp)).
  split; intros [[r [Hr Hq]] H]; (split; [|exact H]); exists r;
    (split; [|exact Hq]).
  - eapply Permutation_in; eassumption.
  - eapply Permutation_in; [symmetry; eassumption | exact Hr].
Qed.

(** C7, as the program has it: when the sum of each position does not
    depend on the order of its terms (no addition rounds), the snapshot
    does not depend on the order of the rows: for a table and any
    rearrangement of its rows, a triple is in one snapshot exactly when it
    is in the other, and the two snapshots are rearrangements of each
    other. *)
Theorem C7_snapshot_independent_of_row_order :
  forall (sum_of : list Q -> Q) (df df' : list transaction),
    Permutation df df' ->
    order_insensitive sum_of df ->
    (forall h : holding,
        In h (get_portfolio_snapshot sum_of df)
        <-> In h (get_portfolio_snapshot sum_of df')) /\
    Permutation (get_portfolio_snapshot sum_of df)
                (get_portfolio_snapshot sum_of df').
Proof.
  intros sum_of df df' Hp Hs.
  assert (Hiff : forall h, In h (get_portfolio_snapshot sum_of df)
                           <-> In h (get_portfolio_snapshot sum_of df'))
    by (intros h; apply snapshot_perm_iff; assumption).
  split; [exact Hiff|].
  apply NoDup_Permutation; [| |exact Hiff].
  - eapply NoDup_map_inv. apply snapshot_keys_NoDup.
  - eapply NoDup_map_inv. apply snapshot_keys_NoDup.
Qed.

Lemma C7_snapshot_independent_of_row_order_witness :
  (forall h : holding,
      In h (get_portfolio_snapshot series_sum
              [buy "AAPL" "X" 10; buy "AAPL" "X" 5; buy "AAPL" "X" (-3)]) <->
      In h (get_portfolio_snapshot series_sum
              [buy "AAPL" "X" 5; buy "AAPL" "X" 10; buy "AAPL" "X" (-3)])) /\
  Permutation
    (get_portfolio_snapshot series_sum
       [buy "AAPL" "X" 10; buy "AAPL" "X" 5; buy "AAPL" "X" (-3)])
    (get_portfolio_snapshot series_sum
       [buy "AAPL" "X" 5; buy "AAPL" "X" 10; buy "AAPL" "X" (-3)]).
Proof.
  apply (C7_snapshot_independent_of_row_order series_sum
           [buy "AAPL" "X" 10; buy "AAPL" "X" 5; buy "AAPL" "X" (-3)]
           [buy "AAPL" "X" 5; buy "AAPL" "X" 10; buy "AAPL" "X" (-3)]).
  - apply perm_swap.
  - intros p i l Hl. apply series_sum_perm, Hl.
Defined.

(** In float64 the order of the rows matters: 0.1, 0.2, -0.3 add up to 0
    and give no position, while 0.1, -0.3, 0.2 add up to 2^-55 and give
    one. *)
Lemma C7_counterexample_float64_row_order :
  Permutation fractional_trades fractional_trades_reordered /\
  get_portfolio_snapshot float64_sum fractional_trades = [] /\
  (exists q : Q,
      get_portfolio_snapshot float64_sum fractional_trades_reordered
      = [("AAPL", "X", q)] /\ 0 < q) /\
  ~ (forall h : holding,
        In h (get_portfolio_snapshot float64_sum fractional_trades)
        <-> In h (get_portfolio_snapshot float64_sum
                    fractional_trades_reordered)).
Proof.
  assert (E1 : get_portfolio_snapshot float64_sum fractional_trades = [])
    by (vm_compute; reflexivity).
  assert (E2 : exists q : Q,
             get_portfolio_snapshot float64_sum fractional_trades_reordered
             = [("AAPL", "X", q)] /\ 0 < q)
    by (eexists; split; [vm_compute; reflexivity | vm_compute; reflexivity]).
  split; [apply perm_skip, perm_swap|].
  split; [exact E1|]. split; [exact E2|].
  intros H. destruct E2 as [q [E2 _]].
  specialize (H ("AAPL", "X", q)). rewrite E1, E2 in H.
  apply (proj2 H). left; reflexivity.
Qed.

(** ** Performance metrics *)

Lemma returns_from_length (s : list Q) : forall prev : Q,
  List.length (dropna (pct_change_from prev s)) = List.length s.
Proof. induction s as [|p s IH]; intros prev; simpl; auto. Qed.


Lemma accumulate_from_length (f : Q -> Q -> Q) (s : list Q) : forall acc : Q,
  List.length (accumulate_from f acc s) = List.length s.
Proof. induction s as [|x s IH]; intros acc; simpl; auto. Qed.

Lemma accumulate_length (f : Q -> Q -> Q) (s : list Q) :
  List.length (accumulate f s) = List.length s.
Proof. destruct s; simpl; [|rewrite accumulate_from_length]; reflexivity. Qed.






Lemma zip_with_length (f : Q -> Q -> Q) (s : list Q) : forall t : list Q,
  List.length s = List.length t -> List.length (zip_with f s t) = List.length s.
Proof.
  induction s as [|x s IH]; intros [|y t] H; simpl in *; try lia.
  rewrite IH; lia.
Qed.


Lemma Qmin_cases (a x : Q) : Qmin a x = a \/ Qmin a x = x.
Proof.
  unfold Qmin, GenericMinMax.gmin. destruct (a ?= x); auto.
Qed.

Lemma fold_Qmin (s : list Q) : forall a : Q,
  fold_left Qmin s a <= a /\
  (forall x, In x s -> fold_left Qmin s a <= x) /\
  (fold_left Qmin s a = a \/ In (fold_left Qmin s a) s).
Proof.
  induction s as [|y s IH]; intros a; simpl.
  - repeat split; [apply Qle_refl | intros x [] | left; reflexivity].
  - destruct (IH (Qmin a y)) as (H1 & H2 & H3). repeat split.
    + eapply Qle_trans; [exact H1 | apply Q.le_min_l].
    + intros x [<-|Hx]; [|auto].
      eapply Qle_trans; [exact H1 | apply Q.le_min_r].
    + destruct H3 as [H3|H3]; [|auto].
      rewrite H3. destruct (Qmin_cases a y) as [->| ->]; auto.
Qed.

(** The minimum of a non-empty series is one of its values and is below
    every value. *)
Lemma series_min_spec (s : list Q) :
  s <> [] ->
  exists m, series_min s = Some m /\ In m s /\ forall x, In x s -> m <= x.
Proof.
  destruct s as [|x s]; [congruence|]. intros _.
  destruct (fold_Qmin s x) as (H1 & H2 & H3).
  exists (fold_left Qmin s x). split; [reflexivity|]. split.
  - simpl. destruct H3 as [->|H3]; auto.
  - intros y [<-|Hy]; auto.
Qed.

Lemma returns_of_length (p : Q) (s : list Q) :
  List.length (returns_of (p :: s)) = List.length s.
Proof. apply returns_from_length. Qed.


Lemma cumulative_length (p : Q) (s : list Q) :
  List.length (cumulative_returns_of (p :: s)) = List.length s.
Proof.
  unfold cumulative_returns_of, cumprod.
  rewrite accumulate_length, List.length_map. apply returns_of_length.
Qed.


Lemma drawdown_length (p : Q) (s : list Q) :
  List.length (drawdown_of (p :: s)) = List.length s.
Proof.
  unfold drawdown_of, cummax.
  rewrite zip_with_length by (rewrite accumulate_length; reflexivity).
  apply cumulative_length.
Qed.




(** ** Drawdown sign *)

Lemma growth_pos (prev p : Q) : 0 < prev -> 0 < p -> 0 < 1 + (p / prev - 1).
Proof.
  intros H1 H2. assert (0 < p / prev) by (apply Qlt_shift_div_l; lra). lra.
Qed.

Lemma growth_gt1 (prev p : Q) : 0 < prev -> prev < p -> 1 < 1 + (p / prev - 1).
Proof.
  intros H1 H2. assert (1 < p / prev) by (apply Qlt_shift_div_l; lra). lra.
Qed.

Lemma ratio_le_0 (x m : Q) : 0 < m -> x <= m -> x / m - 1 <= 0.
Proof.
  intros H1 H2. assert (x / m <= 1) by (apply Qle_shift_div_r; lra). lra.
Qed.

Lemma ratio_self (x : Q) : 0 < x -> x / x - 1 == 0.
Proof.
  intros H. unfold Qdiv. rewrite Qmult_inv_r by lra. reflexivity.
Qed.

Lemma Qmax_lt (a x : Q) : a < x -> Qmax a x = x.
Proof.
  intros H. unfold Qmax, GenericMinMax.gmax.
  replace (a ?= x) with Lt by (symmetry; apply Qlt_alt; exact H).
  reflexivity.
Qed.

Lemma growths_pos (s : list Q) : forall prev : Q,
  0 < prev -> Forall (fun p => 0 < p) s ->
  Forall (fun x => 0 < x)
         (map (fun r => 1 + r) (dropna (pct_change_from prev s))).
Proof.
  induction s as [|p s IH]; intros prev Hprev Hs; simpl; [constructor|].
  inversion Hs as [|? ? Hp Hs']; subst.
  constructor; [apply growth_pos; assumption | apply IH; assumption].
Qed.

Lemma growths_gt1 (s : list Q) : forall prev : Q,
  0 < prev -> increasing_from prev s ->
  Forall (fun x => 1 < x)
         (map (fun r => 1 + r) (dropna (pct_change_from prev s))).
Proof.
  induction s as [|p s IH]; intros prev Hprev Hs; simpl; [constructor|].
  destruct Hs as [Hlt Hs].
  constructor; [apply growth_gt1; assumption | apply IH; [lra | assumption]].
Qed.

Lemma cumprod_from_pos (rs : list Q) : forall acc : Q,
  0 < acc -> Forall (fun x => 0 < x) rs ->
  Forall (fun x => 0 < x) (accumulate_from Qmult acc rs).
Proof.
  induction rs as [|r rs IH]; intros acc Hacc Hrs; cbn [accumulate_from];
    [constructor|].
  inversion Hrs as [|? ? Hr Hrs']; subst.
  assert (0 < acc * r) by (apply Qmult_lt_0_compat; assumption).
  constructor; [assumption | apply IH; assumption].
Qed.

Lemma cumprod_pos (rs : list Q) :
  Forall (fun x => 0 < x) rs -> Forall (fun x => 0 < x) (cumprod rs).
Proof.
  intros Hrs. destruct rs as [|r rs]; [constructor|].
  inversion Hrs as [|? ? Hr Hrs']; subst. unfold cumprod; simpl.
  constructor; [assumption | apply cumprod_from_pos; assumption].
Qed.

Lemma drawdown_from_nonpos (xs : list Q) : forall acc : Q,
  0 < acc -> Forall (fun x => 0 < x) xs ->
  Forall (fun d => d <= 0)
         (zip_with (fun c m => c / m - 1) xs (accumulate_from Qmax acc xs)).
Proof.
  induction xs as [|x xs IH]; intros acc Hacc Hxs;
    cbn [accumulate_from zip_with]; [constructor|].
  inversion Hxs as [|? ? Hx Hxs']; subst.
  assert (Hm : 0 < Qmax acc x)
    by (eapply Qlt_le_trans; [exact Hacc | apply Q.le_max_l]).
  constructor.
  - apply ratio_le_0; [exact Hm | apply Q.le_max_r].
  - apply IH; assumption.
Qed.

Lemma drawdown_nonpos (xs : list Q) :
  Forall (fun x => 0 < x) xs ->
  Forall (fun d => d <= 0) (zip_with (fun c m => c / m - 1) xs (cummax xs)).
Proof.
  intros Hxs. destruct xs as [|x xs]; [constructor|].
  inversion Hxs as [|? ? Hx Hxs']; subst.
  unfold cummax; cbn [accumulate zip_with]. constructor.
  - apply ratio_le_0; [exact Hx | apply Qle_refl].
  - apply drawdown_from_nonpos; assumption.
Qed.

Lemma drawdown_from_zero (rs : list Q) : forall acc : Q,
  0 < acc -> Forall (fun x => 1 < x) rs ->
  Forall (fun d => d == 0)
         (zip_with (fun c m => c / m - 1)
                   (accumulate_from Qmult acc rs)
                   (accumulate_from Qmax acc (accumulate_from Qmult acc rs))).
Proof.
  induction rs as [|r rs IH]; intros acc Hacc Hrs;
    cbn [accumulate_from zip_with]; [constructor|].
  inversion Hrs as [|? ? Hr Hrs']; subst.
  assert (Hlt : acc < acc * r) by nra.
  rewrite (Qmax_lt _ _ Hlt).
  constructor; [apply ratio_self; lra | apply IH; [lra | assumption]].
Qed.

Lemma drawdown_zero (rs : list Q) :
  Forall (fun x => 1 < x) rs ->
  Forall (fun d => d == 0)
         (zip_with (fun c m => c / m - 1) (cumprod rs) (cummax (cumprod rs))).
Proof.
  intros Hrs. destruct rs as [|r rs]; [constructor|].
  inversion Hrs as [|? ? Hr Hrs']; subst.
  unfold cummax, cumprod; cbn [accumulate zip_with]. constructor.
  - apply ratio_self; lra.
  - apply drawdown_from_zero; [lra | assumption].
Qed.

(** C5, as the program has it: when every price is strictly positive, the
    drawdown at each position is at most zero; and for such a series that
    is strictly increasing and has at least two points the max drawdown
    equals 0. *)
Theorem C5_drawdown_nonpositive_for_positive_prices :
  forall prices : list Q,
    Forall (fun p => 0 < p) prices ->
    Forall (fun d => d <= 0) (drawdown_of prices) /\
    (strictly_increasing prices ->
     (2 <= List.length prices)%nat ->
     exists m : Q, snd (calculate_metrics prices) = Some m /\ m == 0).
Proof.
  intros [|p s] Hpos; [split; [constructor | simpl; lia]|].
  inversion Hpos as [|? ? Hp Hs]; subst. split.
  - unfold drawdown_of, cumulative_returns_of, returns_of.
    cbn [pct_change dropna].
    apply drawdown_nonpos, cumprod_pos, growths_pos; assumption.
  - intros Hinc Hlen.
    change (snd (calculate_metrics (p :: s)))
      with (series_min (drawdown_of (p :: s))).
    destruct (series_min_spec (drawdown_of (p :: s))) as (m & Hm & Hin & _).
    { intros E. pose proof (drawdown_length p s) as L.
      rewrite E in L. simpl in L, Hlen. lia. }
    exists m. split; [exact Hm|].
    clear Hm. revert m Hin. apply Forall_forall.
    unfold drawdown_of, cumulative_returns_of, returns_of.
    cbn [pct_change dropna].
    apply drawdown_zero, growths_gt1; assumption.
Qed.

Lemma C5_drawdown_nonpositive_for_positive_prices_witness :
  Forall (fun d => d <= 0) (drawdown_of [100; 110; 121]) /\
  exists m : Q, snd (calculate_metrics [100; 110; 121]) = Some m /\ m == 0.
Proof.
  assert (Hpos : Forall (fun p => 0 < p) [100; 110; 121])
    by (repeat constructor; lra).
  split.
  - exact (proj1 (C5_drawdown_nonpositive_for_positive_prices _ Hpos)).
  - apply (proj2 (C5_drawdown_nonpositive_for_positive_prices _ Hpos)).
    + simpl; repeat split; try lra.
    + simpl; lia.
Defined.

(** With a negative price the cumulative series turns negative and a
    drawdown value can be positive: prices 100, -50, -100 give the drawdown
    values 0 and 1. *)
Lemma C5_counterexample_negative_prices :
  ~ Forall (fun d => d <= 0) (drawdown_of [100; -50; -100]).
Proof.
  intros H.
  assert (E : drawdown_of [100; -50; -100] = [0 # 5000; 250000 # 250000])
    by reflexivity.
  rewrite E in H.
  inversion H as [|? ? _ H2]; subst.
  inversion H2 as [|? ? H3 _]; subst.
  revert H3. unfold Qle; simpl. lia.
Qed.

(** * Further properties of the loader *)

Lemma getitem_fix_all (cols : list string) (df : DataFrame) (col : string) :
  getitem (fix_all cols df) col =
  if existsb (String.eqb col) cols then map fix_column (getitem df col)
  else getitem df col.
Proof.
  induction df as [|[l c] df IH].
  - simpl. destruct (existsb (String.eqb col) cols); reflexivity.
  - unfold fix_all in *. cbn [map]. rewrite !getitem_cons. cbn [fst snd].
    destruct (String.eqb_spec l col) as [->|Hne].
    + destruct (existsb (String.eqb col) cols) eqn:E; cbn [fst snd];
        rewrite String.eqb_refl, IH; reflexivity.
    + assert (Hf : String.eqb l col = false) by (apply String.eqb_neq; exact Hne).
      destruct (existsb (String.eqb l) cols); cbn [fst snd];
        rewrite Hf, IH; reflexivity.
Qed.

(** Everything after the [try] block, by the outcome of the numeric
    loop. *)
Lemma clean_numeric_raise (df : DataFrame) :
  unambiguous cols_to_fix (rename column_map df) = false ->
  clean df = Raise AttributeError.
Proof.
  intros U. unfold clean. rewrite fix_numeric_cols_spec, U. reflexivity.
Qed.

Lemma clean_after_numeric (df : DataFrame) :
  unambiguous cols_to_fix (rename column_map df) = true ->
  clean df = parse_date_column (fix_all cols_to_fix (rename column_map df)).
Proof.
  intros U. unfold clean. rewrite fix_numeric_cols_spec, U. reflexivity.
Qed.

Lemma height_fix_column (c : column) : height (fix_column c) = height c.
Proof. destruct c; simpl; rewrite ?List.length_map; reflexivity. Qed.

Lemma heights_fix_all (cols : list string) (df : DataFrame) :
  map height (map snd (fix_all cols df)) = map height (map snd df).
Proof.
  unfold fix_all. rewrite !map_map. apply map_ext.
  intros lc. destruct (existsb (String.eqb (fst lc)) cols); simpl;
    rewrite ?height_fix_column; reflexivity.
Qed.

Lemma filter_hit {A : Type} (f : A -> bool) (l : list A) (j : nat) (x : A) :
  nth_error l j = Some x -> f x = true -> (1 <= List.length (filter f l))%nat.
Proof.
  intros Hj Hx. apply nth_error_In in Hj.
  assert (Hin : In x (filter f l)) by (apply filter_In; auto).
  destruct (filter f l); [destruct Hin | simpl; lia].
Qed.

Lemma filter_two_hits {A : Type} (f : A -> bool) (l : list A) :
  forall (i j : nat) (x y : A),
    i <> j -> nth_error l i = Some x -> nth_error l j = Some y ->
    f x = true -> f y = true -> (2 <= List.length (filter f l))%nat.
Proof.
  induction l as [|a l IH]; intros i j x y Hij Hi Hj Hx Hy.
  - destruct i; discriminate.
  - destruct i as [|i], j as [|j]; simpl in Hi, Hj.
    + congruence.
    + injection Hi as ->. simpl. rewrite Hx. simpl.
      pose proof (filter_hit f l j y Hj Hy). lia.
    + injection Hj as ->. simpl. rewrite Hy. simpl.
      pose proof (filter_hit f l i x Hi Hx). lia.
    + assert (H2 : (2 <= List.length (filter f l))%nat)
        by (apply (IH i j x y); auto).
      simpl. destruct (f a); simpl; lia.
Qed.

Lemma ambiguous_raises (df : DataFrame) (col : string) :
  In col cols_to_fix -> (2 <= List.length (getitem df col))%nat ->
  unambiguous cols_to_fix df = false.
Proof.
  intros Hcol Hlen.
  destruct (unambiguous cols_to_fix df) eqn:U; [|reflexivity].
  unfold unambiguous in U.
  pose proof (proj1 (forallb_forall _ _) U col Hcol) as H.
  apply Nat.leb_le in H. lia.
Qed.

(** X1: only [FileNotFoundError] is caught.  Any other exception of
    [read_csv] leaves [load_and_clean_data] with nothing printed, and ends
    [main] right after its first line. *)
Theorem X1_other_read_errors_propagate :
  forall (read_csv : string -> result DataFrame)
         (analyse : DataFrame -> list string * result unit)
         (filepath : string) (e : exn),
    e <> FileNotFoundError ->
    (read_csv filepath = Raise e ->
     load_and_clean_data read_csv filepath = ([], Raise e)) /\
    (read_csv INPUT_FILE = Raise e ->
     main read_csv analyse = ([start_message], Raise e)).
Proof.
  intros read_csv analyse filepath e He. split; intros H.
  - unfold load_and_clean_data. rewrite H. destruct e; congruence.
  - unfold main, load_and_clean_data. rewrite H. destruct e; congruence.
Qed.

Lemma X1_other_read_errors_propagate_witness :
  load_and_clean_data (fun _ => Raise PermissionError) "locked.csv"
    = ([], Raise PermissionError) /\
  main (fun _ => Raise PermissionError) (fun _ => ([], Ok tt))
    = ([start_message], Raise PermissionError).
Proof.
  split.
  - apply (proj1 (X1_other_read_errors_propagate
                    (fun _ => Raise PermissionError) (fun _ => ([], Ok tt))
                    "locked.csv" PermissionError ltac:(discriminate))).
    reflexivity.
  - apply (proj2 (X1_other_read_errors_propagate
                    (fun _ => Raise PermissionError) (fun _ => ([], Ok tt))
                    "locked.csv" PermissionError ltac:(discriminate))).
    reflexivity.
Defined.

Lemma rename_nth (df : DataFrame) (i : nat) (l : string) (c : column) :
  nth_error df i = Some (l, c) ->
  nth_error (rename column_map df) i = Some (relabel column_map l, c).
Proof. intros H. unfold rename. rewrite nth_error_map, H. reflexivity. Qed.

(** X2: when two columns of the raw table are relabelled to the same
    designated name (a Dutch and an English header for one field, say), the
    loop cannot read the column's dtype and the load ends with
    [AttributeError]. *)
Theorem X2_merged_designated_labels_raise :
  forall (df : DataFrame) (i j : nat) (l1 l2 : string) (c1 c2 : column),
    i <> j ->
    nth_error df i = Some (l1, c1) ->
    nth_error df j = Some (l2, c2) ->
    relabel column_map l1 = relabel column_map l2 ->
    In (relabel column_map l1) cols_to_fix ->
    clean df = Raise AttributeError.
Proof.
  intros df i j l1 l2 c1 c2 Hij Hi Hj E Hcol.
  apply clean_numeric_raise.
  apply (ambiguous_raises _ (relabel column_map l1) Hcol).
  unfold getitem. rewrite List.length_map.
  apply (filter_two_hits _ _ i j _ _ Hij (rename_nth _ _ _ _ Hi)
           (rename_nth _ _ _ _ Hj)); simpl.
  - apply String.eqb_refl.
  - rewrite E. apply String.eqb_refl.
Qed.

Lemma X2_merged_designated_labels_raise_witness :
  clean [ ("Aantal", NumCol [Some 1]); ("Product", ObjCol [OStr "AAPL"]);
          ("Quantity", NumCol [Some 1]) ]
  = Raise AttributeError.
Proof.
  apply (X2_merged_designated_labels_raise _ 0%nat 2%nat "Aantal" "Quantity"
           (NumCol [Some 1]) (NumCol [Some 1])).
  - discriminate.
  - reflexivity.
  - reflexivity.
  - reflexivity.
  - simpl; auto.
Defined.

(** X3: when two columns are labelled [Date] after renaming (a Dutch and
    an English header, say) and the numeric loop has gone through,
    [to_datetime] receives a DataFrame with duplicate keys and the load
    ends with [ValueError]. *)
Theorem X3_duplicated_date_label_raises :
  forall df : DataFrame,
    unambiguous cols_to_fix (rename column_map df) = true ->
    (2 <= List.length (getitem (rename column_map df) "Date"))%nat ->
    clean df = Raise ValueError.
Proof.
  intros df U Hlen. rewrite (clean_after_numeric df U).
  unfold parse_date_column. rewrite has_column_getitem, getitem_fix_all.
  cbn [existsb cols_to_fix String.eqb Ascii.eqb Bool.eqb orb].
  destruct (getitem (rename column_map df) "Date") as [|c [|c' l]];
    simpl in Hlen; try lia.
  reflexivity.
Qed.

Lemma X3_duplicated_date_label_raises_witness :
  clean [("Datum", ObjCol [OStr "13-01-2024"]); ("Date", ObjCol [OStr "14-01-2024"])]
  = Raise ValueError.
Proof.
  apply X3_duplicated_date_label_raises.
  - reflexivity.
  - simpl; lia.
Defined.

Lemma no_date_column (df : DataFrame) :
  has_column df "Date" = false -> parse_date_column df = Ok df.
Proof. intros H. unfold parse_date_column. rewrite H. reflexivity. Qed.

(** X4: when no designated label is duplicated after renaming, the numeric
    loop hands on a table with the relabelled headers in the same order and
    the same number of rows in every column, in which every column that is
    not designated is as it was read; when no column is labelled [Date],
    this table is what the load returns. *)
Theorem X4_numeric_stage_keeps_shape :
  forall df : DataFrame,
    unambiguous cols_to_fix (rename column_map df) = true ->
    exists df',
      fix_numeric_cols (rename column_map df) = Ok df' /\
      columns df' = map (relabel column_map) (columns df) /\
      map height (map snd df') = map height (map snd df) /\
      (forall (i : nat) (l : string) (c : column),
          nth_error df i = Some (l, c) ->
          ~ In (relabel column_map l) cols_to_fix ->
          nth_error df' i = Some (relabel column_map l, c)) /\
      (has_column df' "Date" = false -> clean df = Ok df').
Proof.
  intros df U.
  exists (fix_all cols_to_fix (rename column_map df)).
  assert (E : fix_numeric_cols (rename column_map df)
              = Ok (fix_all cols_to_fix (rename column_map df)))
    by (rewrite fix_numeric_cols_spec, U; reflexivity).
  split; [exact E|].
  split; [rewrite columns_fix_all; apply rename_columns|].
  split; [rewrite heights_fix_all, rename_data; reflexivity|].
  split.
  - intros i l c Hi Hn. unfold fix_all.
    rewrite nth_error_map, (rename_nth _ _ _ _ Hi). cbn [option_map fst snd].
    destruct (existsb (String.eqb (relabel column_map l)) cols_to_fix) eqn:Ex;
      [|reflexivity].
    exfalso. apply Hn. apply existsb_exists in Ex as [x [Hx Ex]].
    apply String.eqb_eq in Ex. rewrite Ex. exact Hx.
  - intros Hd. unfold clean. rewrite E. simpl. apply no_date_column, Hd.
Qed.

Lemma X4_numeric_stage_keeps_shape_witness :
  exists df',
    fix_numeric_cols (rename column_map sample_export) = Ok df' /\
    columns df' = map (relabel column_map) (columns sample_export) /\
    map height (map snd df') = map height (map snd sample_export) /\
    (forall (i : nat) (l : string) (c : column),
        nth_error sample_export i = Some (l, c) ->
        ~ In (relabel column_map l) cols_to_fix ->
        nth_error df' i = Some (relabel column_map l, c)) /\
    (has_column df' "Date" = false -> clean sample_export = Ok df').
Proof.
  apply (X4_numeric_stage_keeps_shape sample_export). reflexivity.
Defined.

(** X5: under the same condition, no designated column of the table the
    numeric loop hands on holds text: each holds numbers and missing values
    only. *)
Theorem X5_numeric_stage_leaves_no_text :
  forall df : DataFrame,
    unambiguous cols_to_fix (rename column_map df) = true ->
    exists df',
      fix_numeric_cols (rename column_map df) = Ok df' /\
      forall (l : string) (cells : list obj),
        In l cols_to_fix -> ~ In (l, ObjCol cells) df'.
Proof.
  intros df U.
  exists (fix_all cols_to_fix (rename column_map df)).
  split; [rewrite fix_numeric_cols_spec, U; reflexivity|].
  intros l cells Hl Hin.
  unfold fix_all in Hin. apply in_map_iff in Hin as [[l0 c0] [E0 H0]].
  cbn [fst snd] in E0.
  destruct (existsb (String.eqb l0) cols_to_fix) eqn:E.
  - destruct c0; discriminate.
  - injection E0 as -> ->.
    rewrite (existsb_eqb_In _ _ Hl) in E. discriminate.
Qed.

Lemma X5_numeric_stage_leaves_no_text_witness :
  exists df',
    fix_numeric_cols (rename column_map sample_export) = Ok df' /\
    forall (l : string) (cells : list obj),
      In l cols_to_fix -> ~ In (l, ObjCol cells) df'.
Proof.
  apply (X5_numeric_stage_leaves_no_text sample_export). reflexivity.
Defined.

Lemma dict_get_In (d : list (string * string)) (k v : string) :
  dict_get d k = Some v -> In (k, v) d.
Proof.
  induction d as [|[k' v'] d IH]; simpl; [discriminate|].
  destruct (String.eqb_spec k k') as [->|_].
  - intros H; injection H as ->. left; reflexivity.
  - intros H. right. apply IH, H.
Qed.

Lemma canonical_names_fixed :
  Forall (fun kv => relabel column_map (snd kv) = snd kv) column_map.
Proof. repeat constructor. Qed.

Lemma relabel_idem (l : string) :
  relabel column_map (relabel column_map l) = relabel column_map l.
Proof.
  destruct (dict_get column_map l) as [l'|] eqn:E.
  - assert (R : relabel column_map l = l')
      by (unfold relabel; rewrite E; reflexivity).
    rewrite R. apply dict_get_In in E.
    exact (proj1 (Forall_forall _ _) canonical_names_fixed (l, l') E).
  - assert (R : relabel column_map l = l)
      by (unfold relabel; rewrite E; reflexivity).
    rewrite R. exact R.
Qed.

(** X6: renaming is idempotent: every name the table maps to is mapped to
    itself or is not a key, so renaming an already renamed table changes
    nothing. *)
Theorem X6_rename_idempotent :
  forall df : DataFrame,
    rename column_map (rename column_map df) = rename column_map df.
Proof.
  intros df. unfold rename. rewrite map_map. apply map_ext.
  intros [l c]; simpl. rewrite relabel_idem. reflexivity.
Qed.

Lemma digit_not_dot (c : ascii) (d : Z) :
  digit_of c = Some d -> Ascii.eqb c "." = false.
Proof.
  intros H. destruct (Ascii.eqb_spec c ".") as [->|_]; [|reflexivity].
  discriminate H.
Qed.

Lemma digits_count_dots (s : string) : forall (acc : Z) (cnt : nat),
  count_char "." (snd (digits s acc cnt)) = count_char "." s.
Proof.
  induction s as [|c s IH]; intros acc cnt; simpl; [reflexivity|].
  destruct (digit_of c) as [d|] eqn:E; [|reflexivity].
  rewrite IH, (digit_not_dot _ _ E). reflexivity.
Qed.

Lemma space_not_dot (c : ascii) :
  is_space c = true -> Ascii.eqb c "." = false.
Proof.
  intros H. destruct (Ascii.eqb_spec c ".") as [->|_]; [|reflexivity].
  discriminate H.
Qed.

Lemma all_spaces_no_dot (s : string) :
  all_spaces s = true -> count_char "." s = 0%nat.
Proof.
  induction s as [|c s IH]; simpl; [reflexivity|].
  intros H. apply andb_true_iff in H as [Hc Hs].
  rewrite (space_not_dot c Hc). apply IH, Hs.
Qed.

Lemma skip_spaces_dots (s : string) :
  count_char "." (skip_spaces s) = count_char "." s.
Proof.
  induction s as [|c s IH]; simpl; [reflexivity|].
  destruct (is_space c) eqn:E; [|reflexivity].
  rewrite (space_not_dot c E). exact IH.
Qed.

Lemma mantissa_dots (s : string) (q : Q) (rest : string) :
  mantissa s = Some (q, rest) ->
  (count_char "." s <= 1 + count_char "." rest)%nat.
Proof.
  unfold mantissa.
  pose proof (digits_count_dots s 0%Z 0%nat) as H1.
  destruct (digits s 0 0) as [[ip ni] r]. simpl in H1.
  destruct r as [|c r'].
  - destruct (ni =? 0)%nat; [discriminate|].
    intros H; injection H as _ <-. lia.
  - destruct (Ascii.eqb_spec c ".") as [->|_].
    + pose proof (digits_count_dots r' ip 0%nat) as H2.
      destruct (digits r' ip 0) as [[m nf] r'']. simpl in H2.
      destruct (ni + nf =? 0)%nat; [discriminate|].
      intros H; injection H as _ <-. simpl in H1. lia.
    + destruct (ni =? 0)%nat; [discriminate|].
      intros H; injection H as _ <-. lia.
Qed.

Lemma exponent_part_dots (s : string) (x : option Z) :
  exponent_part s = Some x -> count_char "." s = 0%nat.
Proof.
  destruct s as [|c s']; [reflexivity|]. unfold exponent_part.
  destruct (Ascii.eqb c "e" || Ascii.eqb c "E") eqn:Ee.
  - assert (Hc : Ascii.eqb c "." = false).
    { destruct (Ascii.eqb_spec c ".") as [->|_]; [discriminate Ee | reflexivity]. }
    set (s1 := match s' with
               | String c' t =>
                   if Ascii.eqb c' "-" || Ascii.eqb c' "+" then t else s'
               | EmptyString => s'
               end).
    assert (Hs1 : count_char "." s1 = count_char "." s').
    { subst s1. destruct s' as [|c' t]; [reflexivity|].
      destruct (Ascii.eqb c' "-" || Ascii.eqb c' "+") eqn:Es; [|reflexivity].
      simpl. destruct (Ascii.eqb_spec c' ".") as [->|_];
        [discriminate Es | reflexivity]. }
    pose proof (digits_count_dots s1 0%Z 0%nat) as H1.
    destruct (digits s1 0 0) as [[e ne] rest]. simpl in H1.
    destruct ((1 <=? ne)%nat && all_spaces rest) eqn:Eok; [|discriminate].
    intros _. apply andb_true_iff in Eok as [_ Hsp].
    simpl. rewrite Hc, <- Hs1, <- H1. apply all_spaces_no_dot, Hsp.
  - destruct (all_spaces (String c s')) eqn:Esp; [|discriminate].
    intros _. apply all_spaces_no_dot, Esp.
Qed.

Lemma unsigned_decimal_dots (s : string) (q : Q) :
  unsigned_decimal s = Some q -> (count_char "." s <= 1)%nat.
Proof.
  unfold unsigned_decimal.
  destruct (mantissa s) as [[q' rest]|] eqn:Em; [|discriminate].
  destruct (exponent_part rest) as [x|] eqn:Ee; [|discriminate].
  intros _. pose proof (mantissa_dots _ _ _ Em) as H.
  rewrite (exponent_part_dots _ _ Ee) in H. lia.
Qed.

Lemma parse_float_dots (s : string) (q : Q) :
  parse_float s = Some q -> (count_char "." s <= 1)%nat.
Proof.
  unfold parse_float. rewrite <- (skip_spaces_dots s).
  destruct (skip_spaces s) as [|c s']; [discriminate|].
  destruct (Ascii.eqb_spec c "-") as [->|_].
  - destruct (unsigned_decimal s') as [q'|] eqn:E; [|discriminate].
    intros _. simpl. eapply unsigned_decimal_dots; exact E.
  - destruct (Ascii.eqb_spec c "+") as [->|_].
    + intros H. simpl. eapply unsigned_decimal_dots; exact H.
    + apply unsigned_decimal_dots.
Qed.

Lemma normalized_dots (s : string) :
  count_char "." (commas_to_dots (strip_dots s)) = count_char "," s.
Proof.
  induction s as [|c s IH]; simpl; [reflexivity|].
  destruct (Ascii.eqb_spec c ".") as [->|Hd]; [exact IH|].
  simpl. destruct (Ascii.eqb_spec c ",") as [->|Hc]; simpl.
  - rewrite IH. reflexivity.
  - destruct (Ascii.eqb_spec c ".") as [->|_]; [congruence | exact IH].
Qed.

(** X7: every comma of a cell becomes a decimal point, so a cell with two
    or more commas (English thousands separators, for instance) is never
    read as a number: it becomes a missing value, at its position. *)
Theorem X7_two_commas_give_missing :
  forall (cells : list obj) (i : nat) (s : string),
    nth_error cells i = Some (OStr s) ->
    (2 <= count_char "," s)%nat ->
    nth_error (fix_cells cells) i = Some None.
Proof.
  intros cells i s Hi Hc.
  rewrite fix_cells_spec, nth_error_map, Hi. simpl. f_equal.
  unfold normalize_cell.
  destruct (parse_float (commas_to_dots (strip_dots s))) as [q|] eqn:E;
    [|reflexivity].
  apply parse_float_dots in E. rewrite normalized_dots in E. lia.
Qed.

Lemma X7_two_commas_give_missing_witness :
  nth_error (fix_cells [OStr "12,5"; OStr "1,234,567"]) 1 = Some None.
Proof.
  apply (X7_two_commas_give_missing _ 1%nat "1,234,567").
  - reflexivity.
  - simpl; lia.
Defined.

(** * Further properties of the holdings aggregator *)

Lemma keys_of_app (l1 l2 : list transaction) :
  keys_of (l1 ++ l2)%list = (keys_of l1 ++ keys_of l2)%list.
Proof.
  induction l1 as [|r l1 IH]; simpl; [reflexivity|].
  destruct (group_key r); simpl; rewrite IH; reflexivity.
Qed.

Lemma group_quantities_app (k : key) (l1 l2 : list transaction) :
  group_quantities k (l1 ++ l2)%list
  = (group_quantities k l1 ++ group_quantities k l2)%list.
Proof.
  induction l1 as [|r l1 IH]; simpl; [reflexivity|].
  destruct (group_key r) as [k'|], (Quantity r) as [q|]; try exact IH.
  destruct (key_eqb k' k); simpl; rewrite IH; reflexivity.
Qed.

Lemma dropna_subset_app (l1 l2 : list transaction) :
  dropna_subset (l1 ++ l2)%list = (dropna_subset l1 ++ dropna_subset l2)%list.
Proof. apply filter_app. Qed.

Lemma not_a_trade_keys (r : transaction) :
  not_a_trade r -> keys_of (dropna_subset [r]) = [].
Proof.
  destruct r as [[p|] [i|] [q|]]; intros [H|[H|H]]; simpl in H;
    try discriminate; reflexivity.
Qed.

Lemma not_a_trade_quantities (k : key) (r : transaction) :
  not_a_trade r -> group_quantities k (dropna_subset [r]) = [].
Proof.
  destruct r as [[p|] [i|] [q|]]; intros [H|[H|H]]; simpl in H;
    try discriminate; reflexivity.
Qed.

(** The snapshot reads the rows only through their group keys and the
    quantities of each group. *)
Lemma snapshot_ext (sum_of : list Q -> Q) (df df' : list transaction) :
  keys_of (dropna_subset df) = keys_of (dropna_subset df') ->
  (forall k, group_quantities k (dropna_subset df)
             = group_quantities k (dropna_subset df')) ->
  get_portfolio_snapshot sum_of df = get_portfolio_snapshot sum_of df'.
Proof.
  intros Hk Hq. unfold get_portfolio_snapshot, groupby_sum, group_keys.
  rewrite Hk. f_equal. apply map_ext. intros k. rewrite Hq. reflexivity.
Qed.

(** X8: rows that lack the product name, the ISIN or the quantity
    (dividends, fees, currency exchanges) have no influence on the
    snapshot, whatever arithmetic adds up the groups: such a row can be
    taken out anywhere, and a table made of such rows only, the empty table
    included, gives the empty snapshot. *)
Theorem X8_non_trade_rows_are_ignored :
  (forall (sum_of : list Q -> Q) (df1 df2 : list transaction)
          (r : transaction),
      not_a_trade r ->
      get_portfolio_snapshot sum_of (df1 ++ r :: df2)%list
      = get_portfolio_snapshot sum_of (df1 ++ df2)%list) /\
  (forall (sum_of : list Q -> Q) (df : list transaction),
      Forall not_a_trade df -> get_portfolio_snapshot sum_of df = []).
Proof.
  split.
  - intros sum_of df1 df2 r Hr. apply snapshot_ext.
    + change (r :: df2) with ([r] ++ df2)%list.
      rewrite !dropna_subset_app, !keys_of_app, (not_a_trade_keys r Hr).
      reflexivity.
    + intros k. change (r :: df2) with ([r] ++ df2)%list.
      rewrite !dropna_subset_app, !group_quantities_app,
        (not_a_trade_quantities k r Hr).
      reflexivity.
  - intros sum_of df H.
    assert (E : keys_of (dropna_subset df) = []).
    { induction H as [|r df Hr _ IH]; [reflexivity|].
      change (r :: df) with ([r] ++ df)%list.
      rewrite dropna_subset_app, keys_of_app, (not_a_trade_keys r Hr), IH.
      reflexivity. }
    unfold get_portfolio_snapshot, groupby_sum, group_keys.
    rewrite E. reflexivity.
Qed.

Lemma X8_non_trade_rows_are_ignored_witness :
  get_portfolio_snapshot float64_sum
    ([buy "AAPL" "X" 10] ++ mkTransaction (Some "Dividend") None (Some 2)
                         :: [buy "AAPL" "X" 5])%list
  = get_portfolio_snapshot float64_sum
      ([buy "AAPL" "X" 10] ++ [buy "AAPL" "X" 5])%list /\
  get_portfolio_snapshot float64_sum
    [mkTransaction (Some "Dividend") None (Some 2);
     mkTransaction None (Some "X") (Some 1)] = [].
Proof.
  split.
  - apply (proj1 X8_non_trade_rows_are_ignored float64_sum).
    right; left; reflexivity.
  - apply (proj2 X8_non_trade_rows_are_ignored float64_sum).
    apply Forall_cons; [right; left; reflexivity|].
    apply Forall_cons; [left; reflexivity|].
    apply Forall_nil.
Defined.

(** ** The order of the snapshot *)

Lemma ascii_compare_refl (a : ascii) : Ascii.compare a a = Eq.
Proof. unfold Ascii.compare. apply N.compare_refl. Qed.

Lemma ascii_compare_lt_trans (a b c : ascii) :
  Ascii.compare a b = Lt -> Ascii.compare b c = Lt -> Ascii.compare a c = Lt.
Proof.
  unfold Ascii.compare. rewrite !N.compare_lt_iff. apply N.lt_trans.
Qed.

Lemma string_compare_refl (s : string) : String.compare s s = Eq.
Proof.
  induction s as [|a s IH]; simpl; [reflexivity|].
  rewrite ascii_compare_refl. exact IH.
Qed.

Lemma string_compare_lt_trans (s1 : string) : forall s2 s3 : string,
  String.compare s1 s2 = Lt -> String.compare s2 s3 = Lt ->
  String.compare s1 s3 = Lt.
Proof.
  induction s1 as [|a s1 IH]; intros [|b s2] [|c s3]; simpl;
    try discriminate; try reflexivity.
  destruct (Ascii.compare a b) eqn:Hab; try discriminate;
    destruct (Ascii.compare b c) eqn:Hbc; try discriminate.
  - apply Ascii.compare_eq_iff in Hab, Hbc. subst.
    rewrite ascii_compare_refl. apply IH.
  - apply Ascii.compare_eq_iff in Hab. subst. rewrite Hbc. reflexivity.
  - apply Ascii.compare_eq_iff in Hbc. subst. rewrite Hab. reflexivity.
  - rewrite (ascii_compare_lt_trans _ _ _ Hab Hbc). reflexivity.
Qed.

Lemma string_leb_cases (s1 s2 : string) :
  String.leb s1 s2 = true <-> s1 = s2 \/ String.compare s1 s2 = Lt.
Proof.
  unfold String.leb. split.
  - destruct (String.compare s1 s2) eqn:E; try discriminate; intros _.
    + left. apply String.compare_eq_iff, E.
    + right. reflexivity.
  - intros [->| ->]; [rewrite string_compare_refl|]; reflexivity.
Qed.

Lemma string_leb_trans (s1 s2 s3 : string) :
  String.leb s1 s2 = true -> String.leb s2 s3 = true ->
  String.leb s1 s3 = true.
Proof.
  rewrite !string_leb_cases. intros [->|H1] [->|H2]; auto.
  right. eapply string_compare_lt_trans; eassumption.
Qed.

Lemma key_le_total (k1 k2 : key) : key_le k1 k2 \/ key_le k2 k1.
Proof.
  destruct k1 as [p1 i1], k2 as [p2 i2]. unfold key_le, key_leb; simpl.
  rewrite (String.compare_antisym p2 p1).
  destruct (String.compare p1 p2) eqn:E; simpl; auto.
  apply String.leb_total.
Qed.

Lemma key_le_antisym (k1 k2 : key) : key_le k1 k2 -> key_le k2 k1 -> k1 = k2.
Proof.
  destruct k1 as [p1 i1], k2 as [p2 i2]. unfold key_le, key_leb; simpl.
  rewrite (String.compare_antisym p2 p1).
  destruct (String.compare p1 p2) eqn:E; simpl; intros H1 H2;
    try discriminate.
  apply String.compare_eq_iff in E. subst.
  rewrite (String.leb_antisym _ _ H1 H2). reflexivity.
Qed.

Lemma key_le_trans (k1 k2 k3 : key) :
  key_le k1 k2 -> key_le k2 k3 -> key_le k1 k3.
Proof.
  destruct k1 as [p1 i1], k2 as [p2 i2], k3 as [p3 i3].
  unfold key_le, key_leb; simpl.
  destruct (String.compare p1 p2) eqn:E12; try discriminate;
    destruct (String.compare p2 p3) eqn:E23; try discriminate.
  - apply String.compare_eq_iff in E12, E23. subst.
    rewrite string_compare_refl. apply string_leb_trans.
  - apply String.compare_eq_iff in E12. subst. rewrite E23. auto.
  - apply String.compare_eq_iff in E23. subst. rewrite E12. auto.
  - rewrite (string_compare_lt_trans _ _ _ E12 E23). auto.
Qed.

Lemma insert_key_sorted (k : key) (l : list key) :
  Sorted key_le l -> Sorted key_le (insert_key k l).
Proof.
  induction l as [|h t IH]; intros Hs; simpl.
  - repeat constructor.
  - destruct (key_leb k h) eqn:E.
    + constructor; [exact Hs | constructor; exact E].
    + apply Sorted_inv in Hs as [Ht Hh].
      constructor; [apply IH, Ht|].
      assert (Hhk : key_le h k).
      { destruct (key_le_total k h) as [H|H]; [|exact H].
        unfold key_le in H. congruence. }
      destruct t as [|h' t']; simpl.
      * constructor; exact Hhk.
      * destruct (key_leb k h'); constructor; [exact Hhk|].
        inversion Hh; assumption.
Qed.

Lemma sort_keys_sorted (l : list key) : StronglySorted key_le (sort_keys l).
Proof.
  apply Sorted_StronglySorted; [exact key_le_trans|].
  induction l as [|k l IH]; simpl; [constructor|].
  apply insert_key_sorted, IH.
Qed.

Lemma sorted_unique (l : list key) : forall l' : list key,
  StronglySorted key_le l -> StronglySorted key_le l' ->
  Permutation l l' -> l = l'.
Proof.
  induction l as [|a l IH]; intros l' Hs Hs' Hp.
  - apply Permutation_nil in Hp. congruence.
  - destruct l' as [|b l'];
      [apply Permutation_sym, Permutation_nil in Hp; discriminate|].
    apply StronglySorted_inv in Hs as [Hl Ha].
    apply StronglySorted_inv in Hs' as [Hl' Hb].
    assert (E : a = b).
    { assert (Hab : In a (b :: l'))
        by (eapply Permutation_in; [exact Hp | left; reflexivity]).
      assert (Hba : In b (a :: l))
        by (eapply Permutation_in;
            [symmetry; exact Hp | left; reflexivity]).
      destruct Hab as [->|Hab]; [reflexivity|].
      destruct Hba as [->|Hba]; [reflexivity|].
      apply key_le_antisym.
      - exact (proj1 (Forall_forall _ _) Ha b Hba).
      - exact (proj1 (Forall_forall _ _) Hb a Hab). }
    subst b. f_equal. apply IH; try assumption.
    eapply Permutation_cons_inv; exact Hp.
Qed.

Lemma sorted_map_filter {A : Type} (g : A -> key) (f : A -> bool) (l : list A) :
  StronglySorted key_le (map g l) ->
  StronglySorted key_le (map g (filter f l)).
Proof.
  induction l as [|a l IH]; simpl; intros H; [constructor|].
  apply StronglySorted_inv in H as [Hl Ha].
  destruct (f a); simpl; [|auto].
  constructor; [auto|].
  apply Forall_forall. intros x Hx.
  apply in_map_iff in Hx as [y [<- Hy]]. apply filter_In in Hy as [Hy _].
  apply (proj1 (Forall_forall _ _) Ha). apply in_map; exact Hy.
Qed.

(** X10: the snapshot lists its positions in ascending order of product
    name, then ISIN (strings compared character by character), as
    [groupby] sorts its groups, whatever arithmetic adds up the groups. *)
Theorem X10_snapshot_is_sorted :
  forall (sum_of : list Q -> Q) (df : list transaction),
    StronglySorted key_le (map fst (get_portfolio_snapshot sum_of df)).
Proof.
  intros sum_of df. unfold get_portfolio_snapshot. apply sorted_map_filter.
  rewrite groupby_sum_keys. unfold group_keys. apply sort_keys_sorted.
Qed.

Lemma group_keys_perm (df df' : list transaction) :
  Permutation df df' ->
  group_keys (dropna_subset df) = group_keys (dropna_subset df').
Proof.
  intros Hp. apply sorted_unique; try apply sort_keys_sorted.
  apply NoDup_Permutation; try apply group_keys_NoDup.
  intros [p i]. rewrite !group_keys_In, !keys_of_trades.
  split; intros [r [Hr Hq]]; exists r; (split; [|exact Hq]).
  - eapply Permutation_in; eassumption.
  - eapply Permutation_in; [symmetry; eassumption | exact Hr].
Qed.

(** X11: when the sum of each position does not depend on the order of its
    terms (no addition rounds), the snapshots of a table and of any
    rearrangement of its rows are the same list: the same positions with
    the same quantities in the same order. *)
Theorem X11_snapshot_list_independent_of_row_order :
  forall (sum_of : list Q -> Q) (df df' : list transaction),
    Permutation df df' ->
    order_insensitive sum_of df ->
    get_portfolio_snapshot sum_of df = get_portfolio_snapshot sum_of df'.
Proof.
  intros sum_of df df' Hp Hs. unfold get_portfolio_snapshot, groupby_sum.
  rewrite (group_keys_perm _ _ Hp). f_equal. apply map_ext.
  intros [p i]. simpl. rewrite !group_quantities_trades.
  f_equal. symmetry.
  apply (Hs p i _ (position_quantities_perm df df' p i Hp)).
Qed.

Lemma X11_snapshot_list_independent_of_row_order_witness :
  get_portfolio_snapshot series_sum
    [buy "MSFT" "Y" 4; buy "AAPL" "X" 10; buy "AAPL" "X" (-3)]
  = get_portfolio_snapshot series_sum
    [buy "AAPL" "X" 10; buy "MSFT" "Y" 4; buy "AAPL" "X" (-3)].
Proof.
  apply X11_snapshot_list_independent_of_row_order.
  - apply perm_swap.
  - intros p i l Hl. apply series_sum_perm, Hl.
Defined.

(** * Further properties of the performance calculator *)

(** X12: with fewer than two prices there is no return: the cumulative
    series is empty and the max drawdown is the [NaN] of an empty
    minimum. *)
Theorem X12_too_few_prices_give_nan :
  forall prices : list Q,
    (List.length prices < 2)%nat -> calculate_metrics prices = ([], None).
Proof.
  intros [|p [|p1 s]] H; [reflexivity | reflexivity | simpl in H; lia].
Qed.

Lemma X12_too_few_prices_give_nan_witness :
  calculate_metrics [100] = ([], None).
Proof.
  apply (X12_too_few_prices_give_nan [100]). simpl; lia.
Defined.

Lemma Forall2_Qeq_refl (l : list Q) : Forall2 Qeq l l.
Proof. induction l; constructor; [reflexivity | assumption]. Qed.

Lemma Forall2_Qeq_sym (l l' : list Q) : Forall2 Qeq l l' -> Forall2 Qeq l' l.
Proof. induction 1; constructor; [symmetry|]; assumption. Qed.

Lemma Forall2_Qeq_trans (l1 l2 l3 : list Q) :
  Forall2 Qeq l1 l2 -> Forall2 Qeq l2 l3 -> Forall2 Qeq l1 l3.
Proof.
  intros H. revert l3. induction H as [|x y l1 l2 Hxy _ IH]; intros l3 H23;
    inversion H23; subst; constructor.
  - etransitivity; eassumption.
  - apply IH; assumption.
Qed.

Lemma accumulate_from_compat (f : Q -> Q -> Q) :
  (forall a a' b b', a == a' -> b == b' -> f a b == f a' b') ->
  forall (xs ys : list Q), Forall2 Qeq xs ys ->
  forall acc acc' : Q, acc == acc' ->
  Forall2 Qeq (accumulate_from f acc xs) (accumulate_from f acc' ys).
Proof.
  intros Hf xs ys H. induction H as [|x y xs ys Hxy _ IH]; intros acc acc' Ha;
    cbn [accumulate_from]; constructor; auto.
Qed.

Lemma accumulate_compat (f : Q -> Q -> Q) :
  (forall a a' b b', a == a' -> b == b' -> f a b == f a' b') ->
  forall (xs ys : list Q), Forall2 Qeq xs ys ->
  Forall2 Qeq (accumulate f xs) (accumulate f ys).
Proof.
  intros Hf xs ys H. destruct H as [|x y xs ys Hxy H]; cbn [accumulate];
    constructor; [assumption|].
  apply accumulate_from_compat; assumption.
Qed.

Lemma zip_drawdown_compat (xs xs' : list Q) :
  Forall2 Qeq xs xs' ->
  forall ms ms' : list Q, Forall2 Qeq ms ms' ->
  Forall2 Qeq (zip_with (fun c m => c / m - 1) xs ms)
              (zip_with (fun c m => c / m - 1) xs' ms').
Proof.
  induction 1 as [|x x' xs xs' Hx _ IH]; intros ms ms' Hm;
    [destruct Hm; constructor|].
  destruct Hm as [|m m' ms ms' Hm Hms]; cbn [zip_with]; constructor.
  - rewrite Hx, Hm. reflexivity.
  - apply IH; assumption.
Qed.

Lemma drawdowns_compat (xs xs' : list Q) :
  Forall2 Qeq xs xs' -> Forall2 Qeq (drawdowns xs) (drawdowns xs').
Proof.
  intros H. unfold drawdowns, cummax.
  apply zip_drawdown_compat; [exact H|].
  apply accumulate_compat; [|exact H].
  intros a a' b b' Ha Hb. apply Q.max_compat; assumption.
Qed.

Lemma fold_Qmin_compat (l l' : list Q) :
  Forall2 Qeq l l' ->
  forall a a' : Q, a == a' -> fold_left Qmin l a == fold_left Qmin l' a'.
Proof.
  induction 1 as [|x y l l' Hxy _ IH]; intros a a' Ha; simpl; [exact Ha|].
  apply IH. apply Q.min_compat; assumption.
Qed.

Lemma series_min_compat (l l' : list Q) :
  Forall2 Qeq l l' -> same_value (series_min l) (series_min l').
Proof.
  intros H. destruct H as [|x y l l' Hxy H]; simpl; [exact I|].
  apply fold_Qmin_compat; assumption.
Qed.

Lemma Qmult_nonzero (a b : Q) : ~ a == 0 -> ~ b == 0 -> ~ a * b == 0.
Proof.
  intros Ha Hb H. apply Qmult_integral in H. tauto.
Qed.

Lemma growth_ratio (p0 prev p acc : Q) :
  ~ p0 == 0 -> ~ prev == 0 -> acc == prev / p0 ->
  acc * (1 + (p / prev - 1)) == p / p0.
Proof.
  intros H0 Hprev Ha. rewrite Ha. field. split; assumption.
Qed.

Lemma cumulative_from_ratio (p0 : Q) (s : list Q) : forall prev acc : Q,
  ~ p0 == 0 -> ~ prev == 0 -> Forall (fun p => ~ p == 0) s ->
  acc == prev / p0 ->
  Forall2 Qeq
    (accumulate_from Qmult acc
       (map (fun r => 1 + r) (dropna (pct_change_from prev s))))
    (map (fun p => p / p0) s).
Proof.
  induction s as [|p s IH]; intros prev acc H0 Hprev Hs Ha;
    cbn [pct_change_from dropna map accumulate_from]; [constructor|].
  inversion Hs as [|? ? Hp Hs']; subst.
  pose proof (growth_ratio p0 prev p acc H0 Hprev Ha) as E.
  constructor; [exact E|]. apply IH; assumption.
Qed.

(** The cumulative return at each position is the price there divided by
    the first price. *)
Lemma cumulative_ratio (p0 : Q) (s : list Q) :
  ~ p0 == 0 -> Forall (fun p => ~ p == 0) s ->
  Forall2 Qeq (cumulative_returns_of (p0 :: s)) (map (fun p => p / p0) s).
Proof.
  intros H0 Hs. destruct s as [|p1 s]; [constructor|].
  inversion Hs as [|? ? H1 Hs']; subst.
  unfold cumulative_returns_of, returns_of, cumprod.
  cbn [pct_change pct_change_from dropna map accumulate].
  assert (E : 1 + (p1 / p0 - 1) == p1 / p0) by (field; exact H0).
  constructor; [exact E|].
  apply cumulative_from_ratio; assumption.
Qed.

(** X13: for non-zero prices the cumulative return telescopes: its value at
    each position is the price at that position divided by the first
    price. *)
Theorem X13_cumulative_return_is_price_ratio :
  forall (p0 : Q) (s : list Q),
    ~ p0 == 0 -> Forall (fun p => ~ p == 0) s ->
    Forall2 Qeq (fst (calculate_metrics (p0 :: s))) (map (fun p => p / p0) s).
Proof. exact cumulative_ratio. Qed.

Lemma X13_cumulative_return_is_price_ratio_witness :
  Forall2 Qeq (fst (calculate_metrics [100; 120; 90; 130]))
              (map (fun p => p / 100) [120; 90; 130]).
Proof.
  apply (X13_cumulative_return_is_price_ratio 100 [120; 90; 130]).
  - lra.
  - repeat constructor; lra.
Defined.

Lemma scaled_ratios (c p0 : Q) (s : list Q) :
  ~ c == 0 -> ~ p0 == 0 ->
  Forall2 Qeq (map (fun p => p / (c * p0)) (map (Qmult c) s))
              (map (fun p => p / p0) s).
Proof.
  intros Hc H0. induction s as [|p s IH]; cbn [map]; constructor;
    [|exact IH].
  field. split; assumption.
Qed.

Lemma scaled_nonzero (c : Q) (s : list Q) :
  ~ c == 0 -> Forall (fun p => ~ p == 0) s ->
  Forall (fun p => ~ p == 0) (map (Qmult c) s).
Proof.
  intros Hc Hs. induction Hs; cbn [map]; constructor;
    [apply Qmult_nonzero|]; assumption.
Qed.

Lemma cumulative_scaled (c : Q) (prices : list Q) :
  ~ c == 0 -> Forall (fun p => ~ p == 0) prices ->
  Forall2 Qeq (cumulative_returns_of (map (Qmult c) prices))
              (cumulative_returns_of prices).
Proof.
  intros Hc Hs. destruct Hs as [|p0 s H0 Hs]; [constructor|].
  cbn [map].
  eapply Forall2_Qeq_trans;
    [apply cumulative_ratio;
     [apply Qmult_nonzero; assumption | apply scaled_nonzero; assumption]|].
  eapply Forall2_Qeq_trans; [apply scaled_ratios; assumption|].
  apply Forall2_Qeq_sym, cumulative_ratio; assumption.
Qed.

(** X14: the metrics do not depend on the unit of the prices.  Multiplying
    every price of a series of non-zero prices by the same non-zero factor
    (a currency conversion at a fixed rate) gives the same cumulative
    returns and the same max drawdown. *)
Theorem X14_metrics_are_scale_invariant :
  forall (c : Q) (prices : list Q),
    ~ c == 0 -> Forall (fun p => ~ p == 0) prices ->
    Forall2 Qeq (fst (calculate_metrics (map (Qmult c) prices)))
                (fst (calculate_metrics prices)) /\
    same_value (snd (calculate_metrics (map (Qmult c) prices)))
               (snd (calculate_metrics prices)).
Proof.
  intros c prices Hc Hs.
  pose proof (cumulative_scaled c prices Hc Hs) as H.
  split; [exact H|].
  change (same_value
            (series_min (drawdowns (cumulative_returns_of (map (Qmult c) prices))))
            (series_min (drawdowns (cumulative_returns_of prices)))).
  apply series_min_compat, drawdowns_compat, H.
Qed.

Lemma X14_metrics_are_scale_invariant_witness :
  Forall2 Qeq (fst (calculate_metrics (map (Qmult 0.92) [100; 120; 90; 130])))
              (fst (calculate_metrics [100; 120; 90; 130])) /\
  same_value (snd (calculate_metrics (map (Qmult 0.92) [100; 120; 90; 130])))
             (snd (calculate_metrics [100; 120; 90; 130])).
Proof.
  apply (X14_metrics_are_scale_invariant 0.92 [100; 120; 90; 130]).
  - lra.
  - repeat constructor; lra.
Defined.

Lemma Qmax_scale (c m x : Q) : 0 < c -> Qmax (c * m) (c * x) == c * Qmax m x.
Proof.
  intros Hc. destruct (Q.max_spec m x) as [[H1 H2]|[H1 H2]]; rewrite H2.
  - apply Q.max_r. nra.
  - apply Q.max_l. nra.
Qed.

Lemma scaled_ratio (c x m y pk : Q) :
  0 < c -> 0 < m -> y == c * x -> pk == c * m -> y / pk - 1 == x / m - 1.
Proof.
  intros Hc Hm Hy Hpk. rewrite Hy, Hpk. field. split; lra.
Qed.

Lemma drawdown_from_scale (c : Q) (xs ys : list Q) :
  0 < c ->
  Forall2 (fun x y => y == c * x) xs ys ->
  forall acc acc' : Q,
    0 < acc -> acc' == c * acc ->
    Forall2 Qeq
      (zip_with (fun c m => c / m - 1) ys (accumulate_from Qmax acc' ys))
      (zip_with (fun c m => c / m - 1) xs (accumulate_from Qmax acc xs)).
Proof.
  intros Hc H. induction H as [|x y xs ys Hxy _ IH]; intros acc acc' Ha Ha';
    cbn [accumulate_from zip_with]; [constructor|].
  assert (Hm : 0 < Qmax acc x)
    by (eapply Qlt_le_trans; [exact Ha | apply Q.le_max_l]).
  assert (E : Qmax acc' y == c * Qmax acc x).
  { rewrite <- (Qmax_scale c acc x Hc). apply Q.max_compat; assumption. }
  constructor.
  - apply (scaled_ratio c); assumption.
  - apply IH; assumption.
Qed.

Lemma drawdowns_scale (c : Q) (xs ys : list Q) :
  0 < c -> Forall (fun x => 0 < x) xs ->
  Forall2 (fun x y => y == c * x) xs ys ->
  Forall2 Qeq (drawdowns ys) (drawdowns xs).
Proof.
  intros Hc Hpos H. destruct H as [|x y xs ys Hxy H]; [constructor|].
  inversion Hpos as [|? ? Hx _]; subst.
  unfold drawdowns, cummax. cbn [accumulate zip_with]. constructor.
  - apply (scaled_ratio c); assumption.
  - apply (drawdown_from_scale c); assumption.
Qed.

Lemma ratios_pos (p0 : Q) (s : list Q) :
  0 < p0 -> Forall (fun p => 0 < p) s ->
  Forall (fun x => 0 < x) (map (fun p => p / p0) s).
Proof.
  intros H0 Hs. induction Hs as [|p s Hp _ IH]; cbn [map]; constructor;
    [|exact IH].
  cbv beta. apply Qlt_shift_div_l; lra.
Qed.

Lemma ratios_rescaled (p0 p0' : Q) (s : list Q) :
  ~ p0 == 0 -> ~ p0' == 0 ->
  Forall2 (fun x y => y == (p0 / p0') * x)
          (map (fun p => p / p0) s) (map (fun p => p / p0') s).
Proof.
  intros H0 H0'. induction s as [|p s IH]; cbn [map]; constructor;
    [|exact IH].
  cbv beta. field. split; assumption.
Qed.

Lemma positive_nonzero (s : list Q) :
  Forall (fun p => 0 < p) s -> Forall (fun p => ~ p == 0) s.
Proof. induction 1; constructor; [lra | assumption]. Qed.

(** X15: the first price only anchors the returns.  For positive prices the
    drawdown series, and so the max drawdown, is the same whatever the
    first price is: a fall from the first price to the second is not
    counted as a drawdown. *)
Theorem X15_drawdown_ignores_first_price :
  forall (p0 p0' : Q) (s : list Q),
    0 < p0 -> 0 < p0' -> Forall (fun p => 0 < p) s ->
    Forall2 Qeq (drawdown_of (p0 :: s)) (drawdown_of (p0' :: s)) /\
    same_value (snd (calculate_metrics (p0 :: s)))
               (snd (calculate_metrics (p0' :: s))).
Proof.
  intros p0 p0' s H0 H0' Hs.
  assert (Hnz : Forall (fun p => ~ p == 0) s) by (apply positive_nonzero, Hs).
  assert (H : Forall2 Qeq (drawdown_of (p0 :: s)) (drawdown_of (p0' :: s))).
  { change (Forall2 Qeq (drawdowns (cumulative_returns_of (p0 :: s)))
                        (drawdowns (cumulative_returns_of (p0' :: s)))).
    eapply Forall2_Qeq_trans;
      [apply drawdowns_compat, cumulative_ratio; [lra | exact Hnz]|].
    eapply Forall2_Qeq_trans;
      [|apply Forall2_Qeq_sym, drawdowns_compat, cumulative_ratio;
        [lra | exact Hnz]].
    apply Forall2_Qeq_sym.
    apply (drawdowns_scale (p0 / p0')).
    - apply Qlt_shift_div_l; lra.
    - apply ratios_pos; assumption.
    - apply ratios_rescaled; lra. }
  split; [exact H|].
  change (same_value (series_min (drawdown_of (p0 :: s)))
                     (series_min (drawdown_of (p0' :: s)))).
  apply series_min_compat, H.
Qed.

Lemma X15_drawdown_ignores_first_price_witness :
  Forall2 Qeq (drawdown_of [100; 50; 60]) (drawdown_of [10; 50; 60]) /\
  same_value (snd (calculate_metrics [100; 50; 60]))
             (snd (calculate_metrics [10; 50; 60])).
Proof.
  apply (X15_drawdown_ignores_first_price 100 10 [50; 60]).
  - lra.
  - lra.
  - repeat constructor; lra.
Defined.

Lemma ratio_self_nonzero (x : Q) : ~ x == 0 -> x / x - 1 == 0.
Proof.
  intros H. unfold Qdiv. rewrite Qmult_inv_r by exact H. reflexivity.
Qed.

Lemma first_growth_nonzero (p0 p1 : Q) :
  ~ p0 == 0 -> ~ p1 == 0 -> ~ 1 + (p1 / p0 - 1) == 0.
Proof.
  intros H0 H1 H.
  assert (E : p1 == p0 * (p1 / p0)) by (field; exact H0).
  assert (Hy : p1 / p0 == 0) by lra.
  rewrite Hy in E. apply H1. rewrite E. ring.
Qed.

Lemma first_drawdown (p0 p1 : Q) (s : list Q) :
  exists t : list Q,
    drawdown_of (p0 :: p1 :: s)
    = ((1 + (p1 / p0 - 1)) / (1 + (p1 / p0 - 1)) - 1) :: t.
Proof.
  unfold drawdown_of, cumulative_returns_of, returns_of, cumprod, cummax.
  cbn [pct_change pct_change_from dropna map accumulate zip_with].
  eexists. reflexivity.
Qed.

(** X16: for two or more non-zero prices the max drawdown is a number and
    is never positive, also when prices are negative: the first cumulative
    return is its own running peak, so the first drawdown value is 0. *)
Theorem X16_max_drawdown_never_positive :
  forall prices : list Q,
    (2 <= List.length prices)%nat ->
    Forall (fun p => ~ p == 0) prices ->
    exists m : Q, snd (calculate_metrics prices) = Some m /\ m <= 0.
Proof.
  intros [|p0 [|p1 s]] Hlen Hnz; simpl in Hlen; try lia.
  inversion Hnz as [|? ? H0 Hnz']; subst.
  inversion Hnz' as [|? ? H1 _]; subst.
  change (snd (calculate_metrics (p0 :: p1 :: s)))
    with (series_min (drawdown_of (p0 :: p1 :: s))).
  destruct (first_drawdown p0 p1 s) as [t E]. rewrite E.
  destruct (series_min_spec
              (((1 + (p1 / p0 - 1)) / (1 + (p1 / p0 - 1)) - 1) :: t))
    as (m & Hm & _ & Hle); [discriminate|].
  exists m. split; [exact Hm|].
  rewrite <- (ratio_self_nonzero _ (first_growth_nonzero p0 p1 H0 H1)).
  apply Hle. left; reflexivity.
Qed.

Lemma X16_max_drawdown_never_positive_witness :
  exists m : Q, snd (calculate_metrics [100; -50; -100]) = Some m /\ m <= 0.
Proof.
  apply (X16_max_drawdown_never_positive [100; -50; -100]).
  - simpl; lia.
  - repeat constructor; lra.
Defined.

Lemma ratio_gt_m1 (x m : Q) : 0 < x -> 0 < m -> -1 < x / m - 1.
Proof.
  intros Hx Hm. assert (0 < x / m) by (apply Qlt_shift_div_l; lra). lra.
Qed.

Lemma drawdown_from_gt_m1 (xs : list Q) : forall acc : Q,
  0 < acc -> Forall (fun x => 0 < x) xs ->
  Forall (fun d => -1 < d)
         (zip_with (fun c m => c / m - 1) xs (accumulate_from Qmax acc xs)).
Proof.
  induction xs as [|x xs IH]; intros acc Hacc Hxs;
    cbn [accumulate_from zip_with]; [constructor|].
  inversion Hxs as [|? ? Hx Hxs']; subst.
  assert (Hm : 0 < Qmax acc x)
    by (eapply Qlt_le_trans; [exact Hacc | apply Q.le_max_l]).
  constructor; [apply ratio_gt_m1; assumption | apply IH; assumption].
Qed.

Lemma drawdowns_gt_m1 (xs : list Q) :
  Forall (fun x => 0 < x) xs -> Forall (fun d => -1 < d) (drawdowns xs).
Proof.
  intros Hxs. destruct xs as [|x xs]; [constructor|].
  inversion Hxs as [|? ? Hx Hxs']; subst.
  unfold drawdowns, cummax; cbn [accumulate zip_with]. constructor.
  - apply ratio_gt_m1; assumption.
  - apply drawdown_from_gt_m1; assumption.
Qed.

Lemma cumulative_pos (p : Q) (s : list Q) :
  0 < p -> Forall (fun x => 0 < x) s ->
  Forall (fun x => 0 < x) (cumulative_returns_of (p :: s)).
Proof.
  intros Hp Hs. unfold cumulative_returns_of, returns_of.
  cbn [pct_change dropna]. apply cumprod_pos, growths_pos; assumption.
Qed.

(** X17: for positive prices no drawdown value reaches -1 (a loss is always
    less than the whole): every value of the drawdown series, and the max
    drawdown of a series of two or more prices, is above -1. *)
Theorem X17_drawdown_above_minus_one :
  forall prices : list Q,
    Forall (fun p => 0 < p) prices ->
    Forall (fun d => -1 < d) (drawdown_of prices) /\
    ((2 <= List.length prices)%nat ->
     exists m : Q, snd (calculate_metrics prices) = Some m /\ -1 < m).
Proof.
  intros [|p s] Hpos; [split; [constructor | simpl; lia]|].
  inversion Hpos as [|? ? Hp Hs]; subst.
  assert (H : Forall (fun d => -1 < d) (drawdown_of (p :: s)))
    by (apply (drawdowns_gt_m1 (cumulative_returns_of (p :: s))),
          cumulative_pos; assumption).
  split; [exact H|]. intros Hlen.
  change (snd (calculate_metrics (p :: s)))
    with (series_min (drawdown_of (p :: s))).
  destruct (series_min_spec (drawdown_of (p :: s))) as (m & Hm & Hin & _).
  { intros E. pose proof (drawdown_length p s) as L.
    rewrite E in L. simpl in L, Hlen. lia. }
  exists m. split; [exact Hm|].
  exact (proj1 (Forall_forall _ _) H m Hin).
Qed.

Lemma X17_drawdown_above_minus_one_witness :
  Forall (fun d => -1 < d) (drawdown_of [100; 120; 90; 130]) /\
  exists m : Q, snd (calculate_metrics [100; 120; 90; 130]) = Some m /\ -1 < m.
Proof.
  assert (Hpos : Forall (fun p => 0 < p) [100; 120; 90; 130])
    by (repeat constructor; lra).
  split.
  - exact (proj1 (X17_drawdown_above_minus_one _ Hpos)).
  - apply (proj2 (X17_drawdown_above_minus_one _ Hpos)). simpl; lia.
Defined.

Lemma growth_ge1_iff (prev p : Q) :
  0 < prev -> (1 <= 1 + (p / prev - 1) <-> prev <= p).
Proof.
  intros H. assert (E : p == prev * (p / prev)) by (field; lra).
  split; intros H1.
  - assert (Hy : 1 <= p / prev) by lra.
    rewrite E. nra.
  - assert (1 <= p / prev) by (apply Qle_shift_div_l; lra). lra.
Qed.

Lemma growths_ge1_iff (s : list Q) : forall prev : Q,
  0 < prev -> Forall (fun p => 0 < p) s ->
  (Forall (fun r => 1 <= r)
          (map (fun r => 1 + r) (dropna (pct_change_from prev s)))
   <-> nondecreasing_from prev s).
Proof.
  induction s as [|p s IH]; intros prev Hprev Hs;
    cbn [pct_change_from dropna map nondecreasing_from].
  - split; [trivial | constructor].
  - inversion Hs as [|? ? Hp Hs']; subst.
    rewrite Forall_cons_iff, (growth_ge1_iff prev p Hprev), (IH p Hp Hs').
    reflexivity.
Qed.

Lemma peak_reached_iff (acc pk r : Q) :
  0 < acc -> pk == acc -> 0 < r ->
  ((acc * r) / Qmax pk (acc * r) - 1 == 0 <-> 1 <= r).
Proof.
  intros Ha Hpk Hr.
  assert (Ha' : 0 < acc * r) by (apply Qmult_lt_0_compat; assumption).
  split; intros H.
  - assert (Hm : 0 < Qmax pk (acc * r))
      by (eapply Qlt_le_trans; [exact Ha' | apply Q.le_max_r]).
    assert (Hq : (acc * r) / Qmax pk (acc * r) == 1) by lra.
    assert (E0 : Qmax pk (acc * r) * ((acc * r) / Qmax pk (acc * r)) == acc * r)
      by (apply Qmult_div_r; lra).
    rewrite Hq in E0.
    pose proof (Q.le_max_l pk (acc * r)) as Hle.
    assert (Hacc : acc * 1 <= acc * r) by lra.
    exact (proj1 (Qmult_le_l 1 r acc Ha) Hacc).
  - assert (Hacc : acc * 1 <= acc * r)
      by (apply (Qmult_le_l 1 r acc Ha); exact H).
    assert (Hle : pk <= acc * r) by lra.
    rewrite (Q.max_r _ _ Hle). apply ratio_self. exact Ha'.
Qed.

Lemma drawdown_zero_iff_from (rs : list Q) : forall acc pk : Q,
  0 < acc -> pk == acc -> Forall (fun r => 0 < r) rs ->
  (Forall (fun d => d == 0)
          (zip_with (fun c m => c / m - 1)
                    (accumulate_from Qmult acc rs)
                    (accumulate_from Qmax pk (accumulate_from Qmult acc rs)))
   <-> Forall (fun r => 1 <= r) rs).
Proof.
  induction rs as [|r rs IH]; intros acc pk Ha Hpk Hrs;
    cbn [accumulate_from zip_with].
  - split; constructor.
  - inversion Hrs as [|? ? Hr Hrs']; subst.
    assert (Ha' : 0 < acc * r) by (apply Qmult_lt_0_compat; assumption).
    pose proof (peak_reached_iff acc pk r Ha Hpk Hr) as Hhead.
    assert (Htail : 1 <= r ->
              (Forall (fun d => d == 0)
                 (zip_with (fun c m => c / m - 1)
                    (accumulate_from Qmult (acc * r) rs)
                    (accumulate_from Qmax (Qmax pk (acc * r))
                       (accumulate_from Qmult (acc * r) rs)))
               <-> Forall (fun r => 1 <= r) rs)).
    { intros H1. apply IH; [exact Ha' | | exact Hrs'].
      apply Q.max_r.
      assert (Hacc : acc * 1 <= acc * r)
        by (apply (Qmult_le_l 1 r acc Ha); exact H1).
      lra. }
    rewrite !Forall_cons_iff. split; intros [Hh Ht].
    + assert (H1 : 1 <= r) by (apply Hhead; exact Hh).
      split; [exact H1 | apply (Htail H1); exact Ht].
    + split; [apply Hhead; exact Hh | apply (Htail Hh); exact Ht].
Qed.

Lemma drawdowns_zero_iff (r0 : Q) (rs : list Q) :
  0 < r0 -> Forall (fun r => 0 < r) rs ->
  (Forall (fun d => d == 0) (drawdowns (cumprod (r0 :: rs)))
   <-> Forall (fun r => 1 <= r) rs).
Proof.
  intros H0 Hrs. unfold drawdowns, cumprod, cummax.
  cbn [accumulate zip_with]. rewrite Forall_cons_iff.
  pose proof (drawdown_zero_iff_from rs r0 r0 H0 (Qeq_refl r0) Hrs) as H.
  split.
  - intros [_ Ht]. apply H, Ht.
  - intros Hge. split; [apply ratio_self, H0 | apply H, Hge].
Qed.

(** X18: for positive prices (two or more), the max drawdown is 0 exactly
    when the prices from the second one on never fall.  The first price is
    left out: it takes no part in the running peak. *)
Theorem X18_zero_drawdown_iff_no_fall_after_first :
  forall (p0 p1 : Q) (s : list Q),
    0 < p0 -> 0 < p1 -> Forall (fun p => 0 < p) s ->
    exists m : Q,
      snd (calculate_metrics (p0 :: p1 :: s)) = Some m /\
      (m == 0 <-> nondecreasing_from p1 s).
Proof.
  intros p0 p1 s H0 H1 Hs.
  change (snd (calculate_metrics (p0 :: p1 :: s)))
    with (series_min (drawdown_of (p0 :: p1 :: s))).
  destruct (series_min_spec (drawdown_of (p0 :: p1 :: s)))
    as (m & Hm & Hin & Hle).
  { intros E. pose proof (drawdown_length p0 (p1 :: s)) as L.
    rewrite E in L. discriminate L. }
  exists m. split; [exact Hm|].
  assert (Hnp : Forall (fun d => d <= 0) (drawdown_of (p0 :: p1 :: s))).
  { apply (drawdown_nonpos (cumulative_returns_of (p0 :: p1 :: s))).
    apply cumulative_pos; [exact H0 | constructor; assumption]. }
  assert (Hz : m == 0 <->
               Forall (fun d => d == 0) (drawdown_of (p0 :: p1 :: s))).
  { split.
    - intros E. apply Forall_forall. intros x Hx.
      apply Qle_antisym.
      + exact (proj1 (Forall_forall _ _) Hnp x Hx).
      + rewrite <- E. apply Hle, Hx.
    - intros Hall. exact (proj1 (Forall_forall _ _) Hall m Hin). }
  rewrite Hz.
  change (drawdown_of (p0 :: p1 :: s))
    with (drawdowns
            (cumprod ((1 + (p1 / p0 - 1))
                      :: map (fun r => 1 + r) (dropna (pct_change_from p1 s))))).
  rewrite drawdowns_zero_iff.
  - apply growths_ge1_iff; assumption.
  - apply growth_pos; assumption.
  - apply growths_pos; assumption.
Qed.

Lemma X18_zero_drawdown_iff_no_fall_after_first_witness :
  exists m : Q,
    snd (calculate_metrics [100; 50; 60]) = Some m /\
    (m == 0 <-> nondecreasing_from 50 [60]).
Proof.
  apply (X18_zero_drawdown_iff_no_fall_after_first 100 50 [60]).
  - lra.
  - lra.
  - repeat constructor; lra.
Defined.
